(** * Flappy GenAI: the simulation loop and its commentary call

    A shallow embedding of [constants.ts], [types.ts], the logic of the
    [FlappyGame] component (state, [resetGame], [startGame], [gameOver],
    [jump], the per-frame [loop]) and of [getGameFeedback].

    Numbers.  A JavaScript [number] is modelled by an exact rational [Q]
    (integers that only count, the score and the frame counter, by [Z]);
    the rounding of IEEE doubles is outside the model.  [Math.random()] and
    [Math.sin(Date.now() / 300)] are inputs of a frame.

    React.  A handler, an animation frame or the continuation of an
    [await] runs to completion on the values of the last render; the model
    makes each of them one atomic step on a record that holds both the
    [useState] values and the [useRef] cells.  The only places where the
    difference between "the value of the last render" and "the value just
    set" can be seen are the test [gameState === PLAYING] at the top of
    [loop] (read once, before any update) and the [highScore] read by
    [gameOver], which is passed explicitly as the closure's value. *)

From Stdlib Require Import ZArith QArith Qround Qminmax Bool List String Lia Lqa.
From Stdlib Require Import DecimalString.
From Stdlib Require DecimalZ.
Import ListNotations.

Open Scope Q_scope.

(** ** Comparisons of numbers, as booleans *)

Definition Qltb (a b : Q) : bool := if Qlt_le_dec a b then true else false.
Definition Qleb (a b : Q) : bool := if Qlt_le_dec b a then false else true.

Declare Scope js_scope.
Delimit Scope js_scope with js.
Notation "a <? b" := (Qltb a b) (at level 70, no associativity) : js_scope.
Notation "a >? b" := (Qltb b a) (at level 70, no associativity) : js_scope.
Notation "a <=? b" := (Qleb a b) (at level 70, no associativity) : js_scope.
Notation "a >=? b" := (Qleb b a) (at level 70, no associativity) : js_scope.

(** ** constants.ts *)

Definition GRAVITY : Q := 0.4.
Definition JUMP_STRENGTH : Q := -7.5.
Definition PIPE_SPEED : Q := 3.5.
Definition PIPE_SPAWN_RATE : Z := 100.
Definition PIPE_GAP : Q := 160.
Definition PIPE_WIDTH : Q := 60.
Definition BIRD_RADIUS : Q := 18.
Definition BIRD_X : Q := 100.
Definition CANVAS_WIDTH : Q := 800.
Definition CANVAS_HEIGHT : Q := 600.

(** [Math.PI] is the double nearest to pi, a dyadic rational. *)
Definition Math_PI : Q := 884279719003555 # 281474976710656.

(** ** types.ts *)

Inductive GameState := START | PLAYING | GAME_OVER.

Record Bird := mkBird { y : Q; velocity : Q; rotation : Q }.

Record Pipe := mkPipe { x : Q; topHeight : Q; passed : bool }.

(** ** services/geminiService.ts *)

(** What [ai.models.generateContent] does with a request: it rejects, or it
    resolves with a response whose [text] is a string or [undefined]. *)
Inductive ApiOutcome :=
| ApiRejects
| ApiResolves (text : option string).

(** The collaborator, as a function of the model id and the prompt. *)
Definition Service := string -> string -> ApiOutcome.

(** How an [async] body ends. *)
Inductive Completion :=
| Returned (s : string)
| Thrown.

Definition number_to_string (n : Z) : string :=
  NilEmpty.string_of_int (Z.to_int n).

Definition prompt (score : Z) : string :=
  ("
      I just finished a game of Flappy Bird. My score was "
   ++ number_to_string score ++ ".

      If the score is 0-5: Roast me hard. Be sarcastic.
      If the score is 6-20: Give me a backhanded compliment.
      If the score is 21+: Praise me, but warn me about addiction.

      Keep it under 20 words. Be funny.
    ")%string.

Definition KEY_MISSING : string := "API Key missing. I can't judge you properly.".
Definition NO_COMMENT : string := "No comment.".
Definition API_ERROR : string := "I'm speechless (API Error).".

Definition is_empty (s : string) : bool :=
  match s with EmptyString => true | String _ _ => false end.

(** [response.text || "No comment."] *)
Definition text_or_default (text : option string) : string :=
  match text with
  | Some s => if is_empty s then NO_COMMENT else s
  | None => NO_COMMENT
  end.

(** The body of the [try] block. *)
Definition feedback_try (apiKey : string) (ai : Service) (score : Z) : Completion :=
  if is_empty apiKey then Returned KEY_MISSING
  else
    let modelId := "gemini-2.5-flash"%string in
    match ai modelId (prompt score) with
    | ApiRejects => Thrown
    | ApiResolves text => Returned (text_or_default text)
    end.

(** [try { ... } catch (error) { console.error(...); return ...; }] *)
Definition getGameFeedback (apiKey : string) (ai : Service) (score : Z) : Completion :=
  match feedback_try apiKey ai score with
  | Returned s => Returned s
  | Thrown => Returned API_ERROR
  end.

(** ** components/FlappyGame.tsx: the state *)

Record Game := mkGame {
  (* useState *)
  gameState : GameState;
  score : Z;
  highScore : Z;
  aiFeedback : string;
  loadingAi : bool;
  (* useRef *)
  birdRef : Bird;
  pipesRef : list Pipe;
  frameCountRef : Z;
  scoreRef : Z;
  (* the callback that [jump] hands to requestAnimationFrame, when queued *)
  rafImpulse : bool;
  (* the [getGameFeedback] calls that [gameOver] awaits, oldest first, each
     with the score it was given *)
  inFlight : list Z
}.

Definition setGameState (v : GameState) (g : Game) : Game :=
  mkGame v (score g) (highScore g) (aiFeedback g) (loadingAi g) (birdRef g)
         (pipesRef g) (frameCountRef g) (scoreRef g) (rafImpulse g) (inFlight g).
Definition setScore (v : Z) (g : Game) : Game :=
  mkGame (gameState g) v (highScore g) (aiFeedback g) (loadingAi g) (birdRef g)
         (pipesRef g) (frameCountRef g) (scoreRef g) (rafImpulse g) (inFlight g).
Definition setHighScore (v : Z) (g : Game) : Game :=
  mkGame (gameState g) (score g) v (aiFeedback g) (loadingAi g) (birdRef g)
         (pipesRef g) (frameCountRef g) (scoreRef g) (rafImpulse g) (inFlight g).
Definition setAiFeedback (v : string) (g : Game) : Game :=
  mkGame (gameState g) (score g) (highScore g) v (loadingAi g) (birdRef g)
         (pipesRef g) (frameCountRef g) (scoreRef g) (rafImpulse g) (inFlight g).
Definition setLoadingAi (v : bool) (g : Game) : Game :=
  mkGame (gameState g) (score g) (highScore g) (aiFeedback g) v (birdRef g)
         (pipesRef g) (frameCountRef g) (scoreRef g) (rafImpulse g) (inFlight g).
Definition set_birdRef (v : Bird) (g : Game) : Game :=
  mkGame (gameState g) (score g) (highScore g) (aiFeedback g) (loadingAi g) v
         (pipesRef g) (frameCountRef g) (scoreRef g) (rafImpulse g) (inFlight g).
Definition set_pipesRef (v : list Pipe) (g : Game) : Game :=
  mkGame (gameState g) (score g) (highScore g) (aiFeedback g) (loadingAi g) (birdRef g)
         v (frameCountRef g) (scoreRef g) (rafImpulse g) (inFlight g).
Definition set_frameCountRef (v : Z) (g : Game) : Game :=
  mkGame (gameState g) (score g) (highScore g) (aiFeedback g) (loadingAi g) (birdRef g)
         (pipesRef g) v (scoreRef g) (rafImpulse g) (inFlight g).
Definition set_scoreRef (v : Z) (g : Game) : Game :=
  mkGame (gameState g) (score g) (highScore g) (aiFeedback g) (loadingAi g) (birdRef g)
         (pipesRef g) (frameCountRef g) v (rafImpulse g) (inFlight g).
Definition set_rafImpulse (v : bool) (g : Game) : Game :=
  mkGame (gameState g) (score g) (highScore g) (aiFeedback g) (loadingAi g) (birdRef g)
         (pipesRef g) (frameCountRef g) (scoreRef g) v (inFlight g).
Definition set_inFlight (v : list Z) (g : Game) : Game :=
  mkGame (gameState g) (score g) (highScore g) (aiFeedback g) (loadingAi g) (birdRef g)
         (pipesRef g) (frameCountRef g) (scoreRef g) (rafImpulse g) v.

Definition set_y (v : Q) (b : Bird) : Bird := mkBird v (velocity b) (rotation b).
Definition set_velocity (v : Q) (b : Bird) : Bird := mkBird (y b) v (rotation b).
Definition set_rotation (v : Q) (b : Bird) : Bird := mkBird (y b) (velocity b) v.

(** The component as first rendered. *)
Definition initialBird : Bird := mkBird (CANVAS_HEIGHT / 2) 0 0.

Definition mount : Game :=
  mkGame START 0 0 EmptyString false initialBird [] 0 0 false [].

(** ** components/FlappyGame.tsx: the operations *)

Open Scope js_scope.

Definition resetGame (g : Game) : Game :=
  let g := set_birdRef (mkBird (CANVAS_HEIGHT / 2) 0 0) g in
  let g := set_pipesRef [] g in
  let g := set_frameCountRef 0 g in
  let g := set_scoreRef 0 g in
  let g := setScore 0 g in
  setAiFeedback EmptyString g.

Definition startGame (g : Game) : Game :=
  let g := resetGame g in
  setGameState PLAYING g.

(** [gameOver] up to its [await]: [highScore0] is the [highScore] of the
    render in which the callback was made.  The call of [getGameFeedback]
    is issued here; what follows the [await] is [feedbackSettled]. *)
Definition gameOver (highScore0 : Z) (g : Game) : Game :=
  let g := setGameState GAME_OVER g in
  let g := if (scoreRef g >? highScore0)%Z then setHighScore (scoreRef g) g else g in
  let g := setLoadingAi true g in
  set_inFlight (inFlight g ++ [scoreRef g]) g.

(** The rest of [gameOver], run when the oldest awaited call settles.  A
    rejected promise would leave the two setters unreached. *)
Definition feedbackSettled (apiKey : string) (ai : Service) (g : Game) : Game :=
  match inFlight g with
  | [] => g
  | sc :: rest =>
      let g := set_inFlight rest g in
      match getGameFeedback apiKey ai sc with
      | Returned feedback =>
          let g := setAiFeedback feedback g in
          setLoadingAi false g
      | Thrown => g
      end
  end.

Definition jump (g : Game) : Game :=
  match gameState g with
  | PLAYING => set_birdRef (set_velocity JUMP_STRENGTH (birdRef g)) g
  | START =>
      let g := startGame g in
      (* Apply initial jump immediately *)
      set_rafImpulse true g
  | GAME_OVER =>
      if loadingAi g then g (* Prevent restart while loading *)
      else startGame g
  end.

(** The queued callback of [jump], which the browser runs at the next
    animation frame, ahead of the [loop] registered after it. *)
Definition runImpulse (g : Game) : Game :=
  if rafImpulse g
  then set_rafImpulse false (set_birdRef (set_velocity JUMP_STRENGTH (birdRef g)) g)
  else g.

(** *** The update part of [loop] *)

Definition physics (b : Bird) : Bird :=
  let b := set_velocity (velocity b + GRAVITY) b in
  let b := set_y (y b + velocity b) b in
  set_rotation (Qmin (Math_PI / 4) (Qmax (- Math_PI / 4) (velocity b * 0.1))) b.

Definition spawnPipe (random : Q) : Pipe :=
  let minPipeHeight := 50 in
  let maxPipeHeight := CANVAS_HEIGHT - PIPE_GAP - minPipeHeight - 100 in
  let randomHeight :=
    inject_Z (Qfloor (random * (maxPipeHeight - minPipeHeight + 1))) + minPipeHeight in
  mkPipe CANVAS_WIDTH randomHeight false.

Definition spawning (random : Q) (g : Game) : Game :=
  if (Z.rem (frameCountRef g) PIPE_SPAWN_RATE =? 0)%Z
  then set_pipesRef (pipesRef g ++ [spawnPipe random]) g
  else g.

Definition movePipe (pipe : Pipe) : Pipe :=
  mkPipe (x pipe - PIPE_SPEED) (topHeight pipe) (passed pipe).

Definition overlapsX (pipe : Pipe) : bool :=
  (BIRD_X + BIRD_RADIUS >? x pipe) && (BIRD_X - BIRD_RADIUS <? x pipe + PIPE_WIDTH).

Definition outsideGap (birdY : Q) (pipe : Pipe) : bool :=
  (birdY - BIRD_RADIUS <? topHeight pipe) || (birdY + BIRD_RADIUS >? topHeight pipe + PIPE_GAP).

(** The collision test, on a pipe already moved. *)
Definition hitsPipe (birdY : Q) (pipe : Pipe) : bool :=
  overlapsX pipe && outsideGap birdY pipe.

(** The score test, on a pipe already moved. *)
Definition scores (pipe : Pipe) : bool :=
  negb (passed pipe) && (x pipe + PIPE_WIDTH <? BIRD_X).

(** The callback of [pipesRef.current.forEach]: the pipe is updated in
    place, the rest of the state through [g]. *)
Definition pipeBody (highScore0 : Z) (g : Game) (pipe : Pipe) : Game * Pipe :=
  let pipe := movePipe pipe in
  let g := if hitsPipe (y (birdRef g)) pipe then gameOver highScore0 g else g in
  if scores pipe
  then
    let pipe := mkPipe (x pipe) (topHeight pipe) true in
    let g := set_scoreRef (scoreRef g + 1) g in
    let g := setScore (scoreRef g) g in
    (g, pipe)
  else (g, pipe).

Fixpoint forEachPipe (highScore0 : Z) (g : Game) (pipes : list Pipe) : Game * list Pipe :=
  match pipes with
  | [] => (g, [])
  | pipe :: rest =>
      let (g1, pipe1) := pipeBody highScore0 g pipe in
      let (g2, rest1) := forEachPipe highScore0 g1 rest in
      (g2, pipe1 :: rest1)
  end.

Definition movement (highScore0 : Z) (g : Game) : Game :=
  let (g1, pipes1) := forEachPipe highScore0 g (pipesRef g) in
  set_pipesRef pipes1 g1.

Definition pruning (g : Game) : Game :=
  set_pipesRef (filter (fun p => x p >? - PIPE_WIDTH) (pipesRef g)) g.

Definition hitsGround (birdY : Q) : bool :=
  birdY + BIRD_RADIUS >=? CANVAS_HEIGHT - 40.

Definition ground (highScore0 : Z) (g : Game) : Game :=
  if hitsGround (y (birdRef g))
  then
    let g := set_birdRef (set_y (CANVAS_HEIGHT - 40 - BIRD_RADIUS) (birdRef g)) g in
    gameOver highScore0 g
  else g.

Definition ceiling (g : Game) : Game :=
  if y (birdRef g) - BIRD_RADIUS <=? 0
  then
    let b := set_y BIRD_RADIUS (birdRef g) in
    let b := set_velocity 0 b in (* Bonk *)
    set_birdRef b g
  else g.

Definition update (random : Q) (g : Game) : Game :=
  let highScore0 := highScore g in
  let g := set_birdRef (physics (birdRef g)) g in
  let g := spawning random g in
  let g := movement highScore0 g in
  let g := pruning g in
  let g := ground highScore0 g in
  let g := ceiling g in
  set_frameCountRef (frameCountRef g + 1) g.

(** Bobbing animation of the start screen; [sinTime] is
    [Math.sin(Date.now() / 300)]. *)
Definition bobbing (sinTime : Q) (g : Game) : Game :=
  let b := set_y (CANVAS_HEIGHT / 2 + sinTime * 10) (birdRef g) in
  let b := set_rotation 0 b in
  set_birdRef b g.

(** [loop], without its drawing part, which reads the state only. *)
Definition loop (random sinTime : Q) (g : Game) : Game :=
  match gameState g with
  | PLAYING => update random g
  | START => bobbing sinTime g
  | GAME_OVER => g
  end.

(** ** What can happen to the component *)

Inductive Event :=
| Activate                                (* keydown Space/ArrowUp, touchstart, mousedown *)
| PlayAgain                               (* click on the PLAY AGAIN button *)
| AnimationFrame (random sinTime : Q)     (* the browser runs the queued callbacks *)
| Settled (ai : Service).                 (* the oldest awaited commentary call settles *)

Definition step (apiKey : string) (g : Game) (e : Event) : Game :=
  match e with
  | Activate => jump g
  | PlayAgain =>
      (* the button is rendered on the game-over screen only *)
      match gameState g with
      | GAME_OVER => startGame g
      | _ => g
      end
  | AnimationFrame random sinTime => loop random sinTime (runImpulse g)
  | Settled ai => feedbackSettled apiKey ai g
  end.

Definition run (apiKey : string) (g : Game) (events : list Event) : Game :=
  fold_left (step apiKey) events g.

(** A frame whose random number is one [Math.random()] can return. *)
Definition wellFormed (e : Event) : Prop :=
  match e with
  | AnimationFrame random _ => 0 <= random /\ random < 1
  | _ => True
  end.

(** ** Notions used in the statements *)

(** [process.env.API_KEY || ''] when the variable is not set. *)
Definition API_KEY_unset : string := EmptyString.

(** What one frame does to a pipe. *)
Definition afterMove (pipe : Pipe) : Pipe :=
  let pipe := movePipe pipe in
  if scores pipe then mkPipe (x pipe) (topHeight pipe) true else pipe.

Fixpoint countScores (pipes : list Pipe) : Z :=
  match pipes with
  | [] => 0
  | pipe :: rest => ((if scores (movePipe pipe) then 1 else 0) + countScores rest)%Z
  end.

(** The calls of [gameOver] made by the callback. *)
Fixpoint countHits (birdY : Q) (pipes : list Pipe) : nat :=
  match pipes with
  | [] => O
  | pipe :: rest =>
      ((if hitsPipe birdY (movePipe pipe) then 1 else 0) + countHits birdY rest)%nat
  end.

(** The number of [gameOver] calls of a frame: one for each pipe hit, one
    for the ground. *)
Definition triggers (g : Game) : nat :=
  let birdY := y (physics (birdRef g)) in
  (countHits birdY (pipesRef g) + (if hitsGround birdY then 1 else 0))%nat.

(** The bird of a frame once its velocity and position are integrated. *)
Definition integrated (g : Game) : Bird := physics (birdRef (runImpulse g)).

(** The two boundary tests of [update], as a function of the bird. *)
Definition boundary (b : Bird) : Bird :=
  let b := if hitsGround (y b) then set_y (CANVAS_HEIGHT - 40 - BIRD_RADIUS) b else b in
  if y b - BIRD_RADIUS <=? 0 then set_velocity 0 (set_y BIRD_RADIUS b) else b.

Definition gapSafe (pipe : Pipe) : Prop :=
  50 <= topHeight pipe /\
  topHeight pipe <= CANVAS_HEIGHT - PIPE_GAP - 50 - 100 /\
  topHeight pipe <= 290 /\
  topHeight pipe + PIPE_GAP + 40 <= CANVAS_HEIGHT.

(** The number of positions at which the passed-flag goes from false to
    true between two readings of the pipe list. *)
Definition flagFlips (before after : list Pipe) : Z :=
  Z.of_nat (List.length
    (filter (fun pq => negb (passed (fst pq)) && passed (snd pq)) (combine before after))).

Definition scoreInv (g : Game) : Prop := (0 <= scoreRef g)%Z /\ score g = scoreRef g.

(** Steps that are not player input. *)
Definition noInput (e : Event) : Prop :=
  match e with
  | Activate | PlayAgain => False
  | AnimationFrame _ _ | Settled _ => True
  end.

Definition frozenAt (g0 g : Game) : Prop :=
  gameState g = GAME_OVER /\ rafImpulse g = false /\
  birdRef g = birdRef g0 /\ pipesRef g = pipesRef g0 /\
  scoreRef g = scoreRef g0 /\ frameCountRef g = frameCountRef g0.

(** ** Scenarios *)

(** A finished round whose commentary has arrived. *)
Definition crashed : Game :=
  mkGame GAME_OVER 3 3 "No comment." false (mkBird 542 9.3 (Math_PI / 4))
         [mkPipe 310 120 false; mkPipe (-40) 200 true] 250 3 false [].

(** A first round: one input on the start screen, then sixty frames without
    input, by which time the bird has fallen to the ground. *)
Definition firstRound : list Event :=
  Activate :: repeat (AnimationFrame 0.5 0) 60.

(** A bird falling at 9 px per frame from y = 540, no pipes. *)
Definition falling : Game :=
  mkGame PLAYING 2 2 EmptyString false (mkBird 540 9 0) [] 130 2 false [].

(** The bird at y = 100 after integration, a pipe that the frame moves to
    x = 90. *)
Definition aboveGap : Game :=
  mkGame PLAYING 0 0 EmptyString false (mkBird 100 (-0.4) 0) [mkPipe 93.5 200 false] 203 0 false [].

(** A round in which the bird is kept in the air by five more inputs and
    then left to fall: 194 frames in all. *)
Definition longFall : list Event :=
  let frame := AnimationFrame 0.625 0 in
  Activate :: repeat frame 48 ++ Activate :: repeat frame 20 ++ Activate :: repeat frame 20
  ++ Activate :: repeat frame 20 ++ Activate :: repeat frame 20 ++ Activate :: repeat frame 66.

(** The state that [longFall] reaches: in the next frame the bird meets the
    ground, and the first pipe, moved to x = 117.5, begins to overlap the
    bird, which is below its gap. *)
Definition bothHit : Game :=
  mkGame PLAYING 0 0 EmptyString false (mkBird 535.8 18.9 (Math_PI / 4))
         [mkPipe 121 200 false; mkPipe 471 200 false] 194 0 false [].

(** Equality of states up to the representation of the rationals. *)
Definition sameBird (a b : Bird) : bool :=
  Qeq_bool (y a) (y b) && Qeq_bool (velocity a) (velocity b)
  && Qeq_bool (rotation a) (rotation b).

Definition samePipe (p q : Pipe) : bool :=
  Qeq_bool (x p) (x q) && Qeq_bool (topHeight p) (topHeight q)
  && Bool.eqb (passed p) (passed q).

Fixpoint samePipes (ps qs : list Pipe) : bool :=
  match ps, qs with
  | [], [] => true
  | p :: ps, q :: qs => samePipe p q && samePipes ps qs
  | _, _ => false
  end.

(** The bird at y = 280 after integration, a pipe that the frame moves to
    x = 90. *)
Definition inGap : Game :=
  mkGame PLAYING 0 0 EmptyString false (mkBird 280 (-0.4) 0) [mkPipe 93.5 200 false] 203 0 false [].

(** The same pipe fifteen frames later, about to clear the bird. *)
Definition clearing : Game :=
  mkGame PLAYING 0 0 EmptyString false (mkBird 300 (-4) 0) [mkPipe 41 200 false] 218 0 false [].

(** ** The layout of the pipes *)

(** The number of moves of the newest pipe when the frame counter is [fc]:
    pipes are spawned in the frames whose counter is a multiple of
    PIPE_SPAWN_RATE. *)
Definition newestAge (fc : Z) : Z := ((fc - 1) mod PIPE_SPAWN_RATE + 1)%Z.

(** The place of a pipe that has been moved [age] times. *)
Definition xAtAge (age : Z) : Q := CANVAS_WIDTH - PIPE_SPEED * inject_Z age.

(** The pipes, read from the newest to the oldest, are those of ages
    [age], [age + 100], ... that have been spawned ([age <= fc]) and not
    yet pruned ([age <= 245]); each is where its age puts it, and is
    flagged as passed from age 218 on. *)
Fixpoint layout (fc age : Z) (newestFirst : list Pipe) : Prop :=
  match newestFirst with
  | [] => (245 < age \/ fc < age)%Z
  | pipe :: older =>
      (age <= 245)%Z /\ (age <= fc)%Z /\
      x pipe == xAtAge age /\ passed pipe = (218 <=? age)%Z /\
      layout fc (age + PIPE_SPAWN_RATE) older
  end.

(** The score as a function of the frame counter: the first pipe is passed
    in the frame that brings the counter to 218, the next ones every
    PIPE_SPAWN_RATE frames. *)
Definition scoreAt (fc : Z) : Z :=
  if (fc <? 218)%Z then 0%Z else ((fc - 218) / PIPE_SPAWN_RATE + 1)%Z.

Definition laidOut (g : Game) : Prop :=
  (0 <= frameCountRef g)%Z /\
  layout (frameCountRef g) (newestAge (frameCountRef g)) (rev (pipesRef g)) /\
  scoreRef g = scoreAt (frameCountRef g).

(** Each pipe is PIPE_SPEED * PIPE_SPAWN_RATE = 350 px to the left of the
    one spawned after it. *)
Fixpoint spacedBack (newestFirst : list Pipe) : Prop :=
  match newestFirst with
  | newer :: (older :: _) as rest => x older == x newer - 350 /\ spacedBack rest
  | _ => True
  end.

(** ** The bird *)

(** A frame whose [sinTime] is a value of [Math.sin]. *)
Definition sineInRange (e : Event) : Prop :=
  match e with
  | AnimationFrame _ sinTime => -1 <= sinTime /\ sinTime <= 1
  | _ => True
  end.

(** The bird stands between the ceiling and the ground line. *)
Definition inField (g : Game) : Prop :=
  BIRD_RADIUS <= y (birdRef g) /\ y (birdRef g) <= CANVAS_HEIGHT - 40 - BIRD_RADIUS.

(** The drawing angle is within 45 degrees of level. *)
Definition tilted (g : Game) : Prop :=
  - Math_PI / 4 <= rotation (birdRef g) /\ rotation (birdRef g) <= Math_PI / 4.


(** ** High score and loading flag *)

(** Within a frame whose render had high score [hs0]: the high score is
    still [hs0], or it has been raised to a score of this frame. *)
Definition raised (hs0 : Z) (g : Game) : Prop :=
  highScore g = hs0 \/ (hs0 < highScore g <= scoreRef g)%Z.

(** The loading flag is set only while a commentary call is awaited. *)
Definition awaited (g : Game) : Prop :=
  loadingAi g = true -> inFlight g <> [].

(** ** Rounds *)

(** The cells that make up a round: the screen shown and the simulation
    state, without the high score, the commentary and the requests. *)
Definition roundOf (g : Game) : GameState * Bird * list Pipe * Z * Z * Z * bool :=
  (gameState g, birdRef g, pipesRef g, frameCountRef g, scoreRef g, score g, rafImpulse g).

(** Two states that show the same round and, on the game-over screen, agree
    on whether an input may restart it. *)
Definition sameRound (g h : Game) : Prop :=
  roundOf g = roundOf h /\ (gameState g = GAME_OVER -> loadingAi g = loadingAi h).

(** Steps other than the settling of a commentary call. *)
Definition notSettled (e : Event) : Prop :=
  match e with
  | Settled _ => False
  | _ => True
  end.

(** ** Drawing the pipes *)

Definition COLOR_PIPE : string := "#55efc4".
Definition COLOR_PIPE_BORDER : string := "#00b894".

(** A call on the 2D context, with the styles in force when it is made. *)
Inductive Paint :=
| FillRect (fillStyle : string) (rx ry rw rh : Q)
| StrokeRect (strokeStyle : string) (lineWidth : Q) (rx ry rw rh : Q).

(** The callback of the second [pipesRef.current.forEach], in the drawing
    part of [loop]. *)
Definition drawPipe (pipe : Pipe) : list Paint :=
  let bottomPipeY := topHeight pipe + PIPE_GAP in
  let bottomPipeHeight := CANVAS_HEIGHT - bottomPipeY - 40 in
  [ (* Top Pipe *)
    FillRect COLOR_PIPE (x pipe) 0 PIPE_WIDTH (topHeight pipe);
    StrokeRect COLOR_PIPE_BORDER 3 (x pipe) 0 PIPE_WIDTH (topHeight pipe);
    (* Bottom Cap *)
    FillRect COLOR_PIPE_BORDER (x pipe - 2) (topHeight pipe - 20) (PIPE_WIDTH + 4) 20;
    (* Bottom Pipe *)
    FillRect COLOR_PIPE (x pipe) bottomPipeY PIPE_WIDTH bottomPipeHeight;
    StrokeRect COLOR_PIPE_BORDER 3 (x pipe) bottomPipeY PIPE_WIDTH bottomPipeHeight;
    (* Top Cap for Bottom Pipe *)
    FillRect COLOR_PIPE_BORDER (x pipe - 2) bottomPipeY (PIPE_WIDTH + 4) 20 ].

Definition drawPipes (g : Game) : list Paint := flat_map drawPipe (pipesRef g).

(** The rectangle of a call. *)
Definition rectOf (p : Paint) : Q * Q * Q * Q :=
  match p with
  | FillRect _ rx ry rw rh => (rx, ry, rw, rh)
  | StrokeRect _ _ rx ry rw rh => (rx, ry, rw, rh)
  end.

(** A rectangle with an inside, between the top of the canvas and the
    ground line. *)
Definition onField (r : Q * Q * Q * Q) : Prop :=
  let '(rx, ry, rw, rh) := r in
  0 < rw /\ 0 < rh /\ 0 <= ry /\ ry + rh <= CANVAS_HEIGHT - 40.

(** The square around the bird, drawn as a circle of radius BIRD_RADIUS at
    (BIRD_X, birdY), meets the inside of a rectangle. *)
Definition birdMeets (birdY : Q) (r : Q * Q * Q * Q) : Prop :=
  let '(rx, ry, rw, rh) := r in
  BIRD_X - BIRD_RADIUS < rx + rw /\ rx < BIRD_X + BIRD_RADIUS /\
  birdY - BIRD_RADIUS < ry + rh /\ ry < birdY + BIRD_RADIUS.

(** An impulse is queued only in a round begun from the start screen, before
    its first frame. *)
Definition impulseAtStart (g : Game) : Prop :=
  rafImpulse g = true ->
  gameState g = PLAYING /\ frameCountRef g = 0%Z /\ pipesRef g = [] /\ scoreRef g = 0%Z.

(** * Properties *)

(** ** Comparisons *)

Lemma Qltb_true (a b : Q) : (a <? b) = true <-> a < b.
Proof.
  unfold Qltb. destruct (Qlt_le_dec a b) as [H | H]; split; intro K;
    try reflexivity; try discriminate; try assumption.
  exfalso. apply (Qlt_not_le _ _ K H).
Qed.

Lemma Qltb_false (a b : Q) : (a <? b) = false <-> b <= a.
Proof.
  unfold Qltb. destruct (Qlt_le_dec a b) as [H | H]; split; intro K;
    try reflexivity; try discriminate; try assumption.
  exfalso. apply (Qlt_not_le _ _ H K).
Qed.

Lemma Qleb_true (a b : Q) : (a <=? b) = true <-> a <= b.
Proof.
  unfold Qleb. destruct (Qlt_le_dec b a) as [H | H]; split; intro K;
    try reflexivity; try discriminate; try assumption.
  exfalso. apply (Qlt_not_le _ _ H K).
Qed.

Lemma Qleb_false (a b : Q) : (a <=? b) = false <-> b < a.
Proof.
  unfold Qleb. destruct (Qlt_le_dec b a) as [H | H]; split; intro K;
    try reflexivity; try discriminate; try assumption.
  exfalso. apply (Qlt_not_le _ _ K H).
Qed.

(** Turns the boolean tests of a goal or of the context into inequalities. *)
Ltac js_tests :=
  repeat match goal with
  | H : (_ && _)%bool = true |- _ => apply andb_true_iff in H; destruct H
  | H : (_ || _)%bool = false |- _ => apply orb_false_iff in H; destruct H
  | H : Qltb _ _ = true |- _ => apply Qltb_true in H
  | H : Qltb _ _ = false |- _ => apply Qltb_false in H
  | H : Qleb _ _ = true |- _ => apply Qleb_true in H
  | H : Qleb _ _ = false |- _ => apply Qleb_false in H
  | |- Qltb _ _ = true => apply Qltb_true
  | |- Qltb _ _ = false => apply Qltb_false
  | |- Qleb _ _ = true => apply Qleb_true
  | |- Qleb _ _ = false => apply Qleb_false
  end.

Ltac unfold_constants :=
  unfold GRAVITY, JUMP_STRENGTH, PIPE_SPEED, PIPE_GAP, PIPE_WIDTH, BIRD_RADIUS,
    BIRD_X, CANVAS_WIDTH, CANVAS_HEIGHT in *.

(** Projections of a record just built by a setter. *)
Ltac fields :=
  cbv zeta;
  cbn [gameState score highScore aiFeedback loadingAi birdRef pipesRef frameCountRef
       scoreRef rafImpulse inFlight
       setGameState setScore setHighScore setAiFeedback setLoadingAi set_birdRef
       set_pipesRef set_frameCountRef set_scoreRef set_rafImpulse set_inFlight
       y velocity rotation set_y set_velocity set_rotation].

(** ** The commentary call *)

Lemma text_or_default_not_empty (text : option string) :
  is_empty (text_or_default text) = false.
Proof.
  destruct text as [s | ]; simpl; [ | reflexivity ].
  destruct (is_empty s) eqn:E; [ reflexivity | exact E ].
Qed.

(** C9. Whatever the final score and whatever the collaborator does,
    [getGameFeedback] returns a string, never throws and never returns the
    empty string.  When the key is not configured the result is the fixed
    string [KEY_MISSING]; when the key is configured and the request is
    rejected (service unreachable, or an error) it is the fixed string
    [API_ERROR]; when the response carries no text it is the fixed string
    [NO_COMMENT].  The string shown once the awaited call settles is that
    result, and the loading flag is cleared. *)
Theorem feedback_fallback (apiKey : string) (ai : Service) (score : Z) :
  (exists s, getGameFeedback apiKey ai score = Returned s /\ is_empty s = false) /\
  (is_empty apiKey = true ->
     getGameFeedback apiKey ai score = Returned KEY_MISSING) /\
  (is_empty apiKey = false ->
     ai "gemini-2.5-flash"%string (prompt score) = ApiRejects ->
     getGameFeedback apiKey ai score = Returned API_ERROR) /\
  (is_empty apiKey = false ->
     ai "gemini-2.5-flash"%string (prompt score) = ApiResolves None \/
     ai "gemini-2.5-flash"%string (prompt score) = ApiResolves (Some EmptyString) ->
     getGameFeedback apiKey ai score = Returned NO_COMMENT) /\
  (forall g rest, inFlight g = score :: rest ->
     Returned (aiFeedback (feedbackSettled apiKey ai g)) = getGameFeedback apiKey ai score /\
     loadingAi (feedbackSettled apiKey ai g) = false).
Proof.
  unfold getGameFeedback, feedback_try.
  repeat split.
  - destruct (is_empty apiKey).
    + exists KEY_MISSING. split; reflexivity.
    + destruct (ai _ _) as [ | text].
      * exists API_ERROR. split; reflexivity.
      * exists (text_or_default text). split; [ reflexivity | apply text_or_default_not_empty ].
  - intros ->. reflexivity.
  - intros -> ->. reflexivity.
  - intros -> [-> | ->]; reflexivity.
  - unfold feedbackSettled. rewrite H.
    unfold getGameFeedback, feedback_try.
    destruct (is_empty apiKey); [ reflexivity | ].
    destruct (ai _ _); reflexivity.
  - unfold feedbackSettled. rewrite H.
    unfold getGameFeedback, feedback_try.
    destruct (is_empty apiKey); [ reflexivity | ].
    destruct (ai _ _); reflexivity.
Qed.

(** An unreachable service and a missing key, at score 3. *)
Lemma feedback_fallback_witness :
  getGameFeedback API_KEY_unset (fun _ _ => ApiRejects) 3 = Returned KEY_MISSING /\
  getGameFeedback "k" (fun _ _ => ApiRejects) 3 = Returned API_ERROR /\
  getGameFeedback "k" (fun _ _ => ApiResolves None) 3 = Returned NO_COMMENT.
Proof.
  split; [ | split ].
  - apply (proj1 (proj2 (feedback_fallback API_KEY_unset (fun _ _ => ApiRejects) 3))). reflexivity.
  - apply (proj1 (proj2 (proj2 (feedback_fallback "k" (fun _ _ => ApiRejects) 3))));
      reflexivity.
  - apply (proj1 (proj2 (proj2 (proj2 (feedback_fallback "k" (fun _ _ => ApiResolves None) 3)))));
      [ reflexivity | left; reflexivity ].
Defined.

(** ** The callback of [forEach], pipe by pipe *)

Lemma pipeBody_pipe hs g pipe : snd (pipeBody hs g pipe) = afterMove pipe.
Proof.
  unfold pipeBody, afterMove. destruct (scores (movePipe pipe)); reflexivity.
Qed.

Lemma forEachPipe_cons hs g pipe rest :
  forEachPipe hs g (pipe :: rest) =
  (fst (forEachPipe hs (fst (pipeBody hs g pipe)) rest),
   snd (pipeBody hs g pipe) :: snd (forEachPipe hs (fst (pipeBody hs g pipe)) rest)).
Proof.
  simpl. destruct (pipeBody hs g pipe) as [g1 pipe1]. simpl.
  destruct (forEachPipe hs g1 rest) as [g2 rest1]. reflexivity.
Qed.

Lemma forEachPipe_pipes hs g pipes :
  snd (forEachPipe hs g pipes) = map afterMove pipes.
Proof.
  revert g. induction pipes as [ | pipe rest IH]; intro g.
  - reflexivity.
  - rewrite forEachPipe_cons. simpl. rewrite pipeBody_pipe, IH. reflexivity.
Qed.

Lemma movement_pipes hs g : pipesRef (movement hs g) = map afterMove (pipesRef g).
Proof.
  unfold movement. rewrite <- (forEachPipe_pipes hs g).
  destruct (forEachPipe hs g (pipesRef g)). reflexivity.
Qed.

Lemma topHeight_afterMove pipe : topHeight (afterMove pipe) = topHeight pipe.
Proof. unfold afterMove. destruct (scores (movePipe pipe)); reflexivity. Qed.

Lemma x_afterMove pipe : x (afterMove pipe) = x pipe - PIPE_SPEED.
Proof. unfold afterMove. destruct (scores (movePipe pipe)); reflexivity. Qed.

Lemma passed_afterMove pipe :
  passed (afterMove pipe) = (passed pipe || scores (movePipe pipe))%bool.
Proof.
  unfold afterMove. destruct (scores (movePipe pipe)) eqn:E; simpl.
  - rewrite orb_true_r. reflexivity.
  - rewrite orb_false_r. reflexivity.
Qed.

(** The cells that the callback leaves alone. *)
Lemma pipeBody_frame hs g pipe :
  let g1 := fst (pipeBody hs g pipe) in
  birdRef g1 = birdRef g /\ pipesRef g1 = pipesRef g /\
  frameCountRef g1 = frameCountRef g /\ rafImpulse g1 = rafImpulse g /\
  aiFeedback g1 = aiFeedback g.
Proof.
  unfold pipeBody.
  destruct (hitsPipe _ _), (scores _); simpl; repeat split;
    unfold gameOver; simpl; destruct (_ >? _)%Z; reflexivity.
Qed.

Lemma forEachPipe_frame hs pipes : forall g,
  let g1 := fst (forEachPipe hs g pipes) in
  birdRef g1 = birdRef g /\ pipesRef g1 = pipesRef g /\
  frameCountRef g1 = frameCountRef g /\ rafImpulse g1 = rafImpulse g /\
  aiFeedback g1 = aiFeedback g.
Proof.
  induction pipes as [ | pipe rest IH]; intro g.
  - simpl. repeat split.
  - rewrite forEachPipe_cons. simpl.
    destruct (IH (fst (pipeBody hs g pipe))) as (A & B & C & D & E).
    destruct (pipeBody_frame hs g pipe) as (A' & B' & C' & D' & E').
    repeat split; congruence.
Qed.

(** The score after the callback. *)
Lemma pipeBody_scoreRef hs g pipe :
  scoreRef (fst (pipeBody hs g pipe)) =
  (scoreRef g + (if scores (movePipe pipe) then 1 else 0))%Z.
Proof.
  unfold pipeBody.
  destruct (hitsPipe _ _), (scores _); simpl;
    unfold gameOver; simpl; try destruct (_ >? _)%Z; simpl; lia.
Qed.

Lemma forEachPipe_scoreRef hs pipes : forall g,
  scoreRef (fst (forEachPipe hs g pipes)) = (scoreRef g + countScores pipes)%Z.
Proof.
  induction pipes as [ | pipe rest IH]; intro g.
  - simpl. lia.
  - rewrite forEachPipe_cons. simpl fst. rewrite IH, pipeBody_scoreRef. simpl. lia.
Qed.

(** The displayed score follows the cell. *)
Lemma pipeBody_score hs g pipe :
  score g = scoreRef g ->
  score (fst (pipeBody hs g pipe)) = scoreRef (fst (pipeBody hs g pipe)).
Proof.
  unfold pipeBody.
  destruct (hitsPipe _ _), (scores _); simpl;
    unfold gameOver; simpl; try destruct (_ >? _)%Z; simpl; auto.
Qed.

Lemma forEachPipe_score hs pipes : forall g,
  score g = scoreRef g ->
  score (fst (forEachPipe hs g pipes)) = scoreRef (fst (forEachPipe hs g pipes)).
Proof.
  induction pipes as [ | pipe rest IH]; intros g H.
  - exact H.
  - rewrite forEachPipe_cons. simpl fst. apply IH, pipeBody_score, H.
Qed.

Lemma gameOver_fields hs g :
  gameState (gameOver hs g) = GAME_OVER /\
  loadingAi (gameOver hs g) = true /\
  inFlight (gameOver hs g) = inFlight g ++ [scoreRef g] /\
  scoreRef (gameOver hs g) = scoreRef g /\
  score (gameOver hs g) = score g /\
  birdRef (gameOver hs g) = birdRef g /\
  pipesRef (gameOver hs g) = pipesRef g /\
  frameCountRef (gameOver hs g) = frameCountRef g /\
  rafImpulse (gameOver hs g) = rafImpulse g.
Proof.
  unfold gameOver. simpl. destruct (_ >? _)%Z; simpl; repeat split.
Qed.

Lemma pipeBody_inFlight hs g pipe :
  List.length (inFlight (fst (pipeBody hs g pipe))) =
  (List.length (inFlight g) + (if hitsPipe (y (birdRef g)) (movePipe pipe) then 1 else 0))%nat.
Proof.
  unfold pipeBody.
  destruct (hitsPipe _ _), (scores _); simpl;
    try destruct (_ >? _)%Z; simpl; rewrite ?length_app; simpl; lia.
Qed.

Lemma forEachPipe_inFlight hs pipes : forall g,
  List.length (inFlight (fst (forEachPipe hs g pipes))) =
  (List.length (inFlight g) + countHits (y (birdRef g)) pipes)%nat.
Proof.
  induction pipes as [ | pipe rest IH]; intro g.
  - simpl. lia.
  - rewrite forEachPipe_cons. simpl fst. rewrite IH, pipeBody_inFlight.
    destruct (pipeBody_frame hs g pipe) as (-> & _). simpl. lia.
Qed.

Lemma pipeBody_gameState hs g pipe :
  gameState (fst (pipeBody hs g pipe)) =
  if hitsPipe (y (birdRef g)) (movePipe pipe) then GAME_OVER else gameState g.
Proof.
  unfold pipeBody.
  destruct (hitsPipe _ _), (scores _); simpl; try destruct (_ >? _)%Z; reflexivity.
Qed.

Lemma forEachPipe_gameState hs pipes : forall g,
  gameState (fst (forEachPipe hs g pipes)) =
  match countHits (y (birdRef g)) pipes with
  | O => gameState g
  | S _ => GAME_OVER
  end.
Proof.
  induction pipes as [ | pipe rest IH]; intro g.
  - reflexivity.
  - rewrite forEachPipe_cons. simpl fst. rewrite IH, pipeBody_gameState.
    destruct (pipeBody_frame hs g pipe) as (-> & _). simpl.
    destruct (hitsPipe _ _); simpl; destruct (countHits _ rest); reflexivity.
Qed.

(** ** The stages of [update] *)

Lemma movement_eq hs g :
  movement hs g =
  set_pipesRef (snd (forEachPipe hs g (pipesRef g))) (fst (forEachPipe hs g (pipesRef g))).
Proof. unfold movement. destruct (forEachPipe hs g (pipesRef g)). reflexivity. Qed.

Lemma movement_fields hs g :
  scoreRef (movement hs g) = (scoreRef g + countScores (pipesRef g))%Z /\
  birdRef (movement hs g) = birdRef g /\
  frameCountRef (movement hs g) = frameCountRef g /\
  rafImpulse (movement hs g) = rafImpulse g /\
  List.length (inFlight (movement hs g)) =
    (List.length (inFlight g) + countHits (y (birdRef g)) (pipesRef g))%nat /\
  gameState (movement hs g) =
    match countHits (y (birdRef g)) (pipesRef g) with
    | O => gameState g
    | S _ => GAME_OVER
    end.
Proof.
  rewrite movement_eq. simpl.
  destruct (forEachPipe_frame hs (pipesRef g) g) as (A & _ & C & D & _).
  rewrite forEachPipe_scoreRef, forEachPipe_inFlight, forEachPipe_gameState.
  repeat split; assumption.
Qed.

Lemma movement_score hs g :
  score g = scoreRef g -> score (movement hs g) = scoreRef (movement hs g).
Proof. rewrite movement_eq. simpl. apply forEachPipe_score. Qed.

Lemma spawning_fields random g :
  gameState (spawning random g) = gameState g /\
  scoreRef (spawning random g) = scoreRef g /\
  score (spawning random g) = score g /\
  birdRef (spawning random g) = birdRef g /\
  frameCountRef (spawning random g) = frameCountRef g /\
  rafImpulse (spawning random g) = rafImpulse g /\
  inFlight (spawning random g) = inFlight g /\
  highScore (spawning random g) = highScore g.
Proof. unfold spawning. destruct (_ =? _)%Z; simpl; repeat split. Qed.

Lemma spawning_pipes random g :
  pipesRef (spawning random g) =
  if (Z.rem (frameCountRef g) PIPE_SPAWN_RATE =? 0)%Z
  then pipesRef g ++ [spawnPipe random] else pipesRef g.
Proof. unfold spawning. destruct (_ =? _)%Z; reflexivity. Qed.

Lemma ground_fields hs g :
  scoreRef (ground hs g) = scoreRef g /\
  score (ground hs g) = score g /\
  pipesRef (ground hs g) = pipesRef g /\
  frameCountRef (ground hs g) = frameCountRef g /\
  rafImpulse (ground hs g) = rafImpulse g /\
  velocity (birdRef (ground hs g)) = velocity (birdRef g) /\
  List.length (inFlight (ground hs g)) =
    (List.length (inFlight g) + (if hitsGround (y (birdRef g)) then 1 else 0))%nat /\
  gameState (ground hs g) =
    (if hitsGround (y (birdRef g)) then GAME_OVER else gameState g) /\
  y (birdRef (ground hs g)) =
    (if hitsGround (y (birdRef g)) then CANVAS_HEIGHT - 40 - BIRD_RADIUS else y (birdRef g)).
Proof.
  unfold ground. destruct (hitsGround _).
  - unfold gameOver. simpl. destruct (_ >? _)%Z; simpl;
      rewrite ?length_app; simpl; repeat split; lia.
  - repeat split. lia.
Qed.

Lemma ceiling_fields g :
  gameState (ceiling g) = gameState g /\
  scoreRef (ceiling g) = scoreRef g /\
  score (ceiling g) = score g /\
  pipesRef (ceiling g) = pipesRef g /\
  frameCountRef (ceiling g) = frameCountRef g /\
  rafImpulse (ceiling g) = rafImpulse g /\
  inFlight (ceiling g) = inFlight g.
Proof. unfold ceiling. destruct (_ <=? _); simpl; repeat split. Qed.

(** The pipe just spawned is far from the bird: it neither scores nor
    collides in the frame of its creation. *)
Lemma spawnPipe_quiet random birdY :
  scores (movePipe (spawnPipe random)) = false /\
  hitsPipe birdY (movePipe (spawnPipe random)) = false.
Proof. split; reflexivity. Qed.

Lemma countScores_app ps qs : countScores (ps ++ qs) = (countScores ps + countScores qs)%Z.
Proof. induction ps as [ | p ps IH]; simpl; [ reflexivity | rewrite IH; lia ]. Qed.

Lemma countHits_app birdY ps qs :
  countHits birdY (ps ++ qs) = (countHits birdY ps + countHits birdY qs)%nat.
Proof. induction ps as [ | p ps IH]; simpl; [ reflexivity | rewrite IH; lia ]. Qed.

Lemma countScores_spawning random g :
  countScores (pipesRef (spawning random g)) = countScores (pipesRef g).
Proof.
  rewrite spawning_pipes. destruct (_ =? _)%Z; [ | reflexivity ].
  rewrite countScores_app. simpl. lia.
Qed.

Lemma countHits_spawning birdY random g :
  countHits birdY (pipesRef (spawning random g)) = countHits birdY (pipesRef g).
Proof.
  rewrite spawning_pipes. destruct (_ =? _)%Z; [ | reflexivity ].
  rewrite countHits_app. simpl. lia.
Qed.

Lemma countScores_nonneg pipes : (0 <= countScores pipes)%Z.
Proof.
  induction pipes as [ | p ps IH]; simpl; [ lia | ].
  destruct (scores _); lia.
Qed.

(** ** What one [update] does to each cell *)

Lemma update_scoreRef random g :
  scoreRef (update random g) = (scoreRef g + countScores (pipesRef g))%Z.
Proof.
  unfold update. fields.
  destruct (ceiling_fields
    (ground (highScore g) (pruning (movement (highScore g)
      (spawning random (set_birdRef (physics (birdRef g)) g)))))) as (_ & -> & _).
  destruct (ground_fields (highScore g) (pruning (movement (highScore g)
      (spawning random (set_birdRef (physics (birdRef g)) g))))) as (-> & _).
  unfold pruning. fields.
  destruct (movement_fields (highScore g)
      (spawning random (set_birdRef (physics (birdRef g)) g))) as (-> & _).
  rewrite countScores_spawning.
  destruct (spawning_fields random (set_birdRef (physics (birdRef g)) g)) as (_ & -> & _).
  reflexivity.
Qed.

Lemma update_score random g :
  score g = scoreRef g -> score (update random g) = scoreRef (update random g).
Proof.
  intro H. unfold update. fields.
  set (g3 := movement _ _).
  assert (E : score g3 = scoreRef g3).
  { apply movement_score.
    destruct (spawning_fields random (set_birdRef (physics (birdRef g)) g))
      as (_ & -> & -> & _). exact H. }
  destruct (ceiling_fields (ground (highScore g) (pruning g3))) as (_ & -> & -> & _).
  destruct (ground_fields (highScore g) (pruning g3)) as (-> & -> & _).
  exact E.
Qed.

Lemma update_pipes random g :
  pipesRef (update random g) =
  filter (fun p => x p >? - PIPE_WIDTH) (map afterMove (pipesRef (spawning random g))).
Proof.
  unfold update. fields.
  set (g2 := spawning random (set_birdRef _ g)).
  destruct (ceiling_fields (ground (highScore g) (pruning (movement (highScore g) g2))))
    as (_ & _ & _ & -> & _).
  destruct (ground_fields (highScore g) (pruning (movement (highScore g) g2)))
    as (_ & _ & -> & _).
  unfold pruning. fields. rewrite movement_pipes.
  unfold g2. rewrite !spawning_pipes. reflexivity.
Qed.

Lemma update_frameCount random g :
  frameCountRef (update random g) = (frameCountRef g + 1)%Z.
Proof.
  unfold update. fields.
  set (g2 := spawning random (set_birdRef _ g)).
  destruct (ceiling_fields (ground (highScore g) (pruning (movement (highScore g) g2))))
    as (_ & _ & _ & _ & -> & _).
  destruct (ground_fields (highScore g) (pruning (movement (highScore g) g2)))
    as (_ & _ & _ & -> & _).
  unfold pruning. fields.
  destruct (movement_fields (highScore g) g2) as (_ & _ & -> & _).
  unfold g2. destruct (spawning_fields random (set_birdRef (physics (birdRef g)) g))
    as (_ & _ & _ & _ & -> & _).
  reflexivity.
Qed.

Lemma update_inFlight random g :
  List.length (inFlight (update random g)) = (List.length (inFlight g) + triggers g)%nat.
Proof.
  unfold update, triggers. fields.
  set (g2 := spawning random (set_birdRef _ g)).
  destruct (ceiling_fields (ground (highScore g) (pruning (movement (highScore g) g2))))
    as (_ & _ & _ & _ & _ & _ & ->).
  destruct (ground_fields (highScore g) (pruning (movement (highScore g) g2)))
    as (_ & _ & _ & _ & _ & _ & -> & _).
  unfold pruning. fields.
  destruct (movement_fields (highScore g) g2) as (_ & -> & _ & _ & -> & _).
  unfold g2. rewrite countHits_spawning.
  destruct (spawning_fields random (set_birdRef (physics (birdRef g)) g))
    as (_ & _ & _ & -> & _ & _ & -> & _).
  simpl. lia.
Qed.

Lemma update_gameState random g :
  gameState (update random g) =
  match triggers g with
  | O => gameState g
  | S _ => GAME_OVER
  end.
Proof.
  unfold update, triggers. fields.
  set (g2 := spawning random (set_birdRef _ g)).
  destruct (ceiling_fields (ground (highScore g) (pruning (movement (highScore g) g2))))
    as (-> & _).
  destruct (ground_fields (highScore g) (pruning (movement (highScore g) g2)))
    as (_ & _ & _ & _ & _ & _ & _ & -> & _).
  unfold pruning. fields.
  destruct (movement_fields (highScore g) g2) as (_ & -> & _ & _ & _ & ->).
  unfold g2. rewrite countHits_spawning.
  destruct (spawning_fields random (set_birdRef (physics (birdRef g)) g))
    as (-> & _ & _ & -> & _).
  simpl.
  destruct (hitsGround _); destruct (countHits _ _); simpl; reflexivity.
Qed.

(** ** Runs of the component *)

(** An invariant of every step from a state where it holds is an invariant
    of every run. *)
Lemma run_invariant (apiKey : string) (Inv : Game -> Prop) (Ok : Event -> Prop) :
  (forall g e, Ok e -> Inv g -> Inv (step apiKey g e)) ->
  forall events g, Forall Ok events -> Inv g -> Inv (run apiKey g events).
Proof.
  intros Hstep events. induction events as [ | e events IH]; intros g Hok Hg.
  - exact Hg.
  - inversion Hok; subst. simpl. apply IH; [ assumption | ].
    apply Hstep; assumption.
Qed.

Lemma runImpulse_fields g :
  gameState (runImpulse g) = gameState g /\
  scoreRef (runImpulse g) = scoreRef g /\
  score (runImpulse g) = score g /\
  pipesRef (runImpulse g) = pipesRef g /\
  frameCountRef (runImpulse g) = frameCountRef g /\
  inFlight (runImpulse g) = inFlight g /\
  highScore (runImpulse g) = highScore g /\
  loadingAi (runImpulse g) = loadingAi g /\
  y (birdRef (runImpulse g)) = y (birdRef g) /\
  rafImpulse (runImpulse g) = false.
Proof.
  unfold runImpulse. destruct (rafImpulse g) eqn:E; simpl; repeat split. exact E.
Qed.

(** ** Gap safety *)

Lemma spawnPipe_gapSafe (random : Q) :
  0 <= random -> random < 1 -> gapSafe (spawnPipe random).
Proof.
  intros H0 H1. unfold gapSafe, spawnPipe. cbn [topHeight]. unfold_constants.
  set (r := random * (600 - 160 - 50 - 100 - 50 + 1)).
  assert (Hr0 : 0 <= r) by (unfold r; lra).
  assert (Hr1 : r < 241) by (unfold r; lra).
  assert (L : (0 <= Qfloor r)%Z).
  { change 0%Z with (Qfloor (inject_Z 0)). apply Qfloor_resp_le. exact Hr0. }
  assert (U : (Qfloor r < 241)%Z).
  { rewrite Zlt_Qlt. apply Qle_lt_trans with r; [ apply Qfloor_le | exact Hr1 ]. }
  assert (L' : inject_Z 0 <= inject_Z (Qfloor r)) by (rewrite <- Zle_Qle; exact L).
  assert (U' : inject_Z (Qfloor r) <= inject_Z 240) by (rewrite <- Zle_Qle; lia).
  change (inject_Z 0) with 0 in L'. change (inject_Z 240) with 240 in U'.
  repeat split; lra.
Qed.

Lemma gapSafe_afterMove pipe : gapSafe pipe -> gapSafe (afterMove pipe).
Proof. unfold gapSafe. rewrite topHeight_afterMove. trivial. Qed.

Lemma gapSafe_step apiKey g e :
  wellFormed e -> Forall gapSafe (pipesRef g) -> Forall gapSafe (pipesRef (step apiKey g e)).
Proof.
  intros Hwf Hg. destruct e as [ | | random sinTime | ai]; simpl.
  - unfold jump. destruct (gameState g); simpl; try assumption; try constructor.
    destruct (loadingAi g); simpl; [ assumption | constructor ].
  - destruct (gameState g); simpl; try assumption; constructor.
  - destruct (runImpulse_fields g) as (Hs & _ & _ & Hp & _).
    unfold loop. destruct (gameState (runImpulse g)).
    + simpl. rewrite Hp. assumption.
    + rewrite update_pipes, spawning_pipes, Hp.
      rewrite Forall_forall. intros p Hin.
      apply filter_In in Hin. destruct Hin as [Hin _].
      apply in_map_iff in Hin. destruct Hin as (q & <- & Hq).
      apply gapSafe_afterMove.
      destruct (_ =? _)%Z.
      * apply in_app_or in Hq. destruct Hq as [Hq | [<- | []]].
        -- rewrite Forall_forall in Hg. apply Hg, Hq.
        -- destruct Hwf. apply spawnPipe_gapSafe; assumption.
      * rewrite Forall_forall in Hg. apply Hg, Hq.
    + rewrite Hp. assumption.
  - unfold feedbackSettled. destruct (inFlight g); [ assumption | ].
    destruct (getGameFeedback _ _ _); simpl; assumption.
Qed.

(** C5. Every obstacle spawned is given a gap-top height h with
    50 <= h <= CANVAS_HEIGHT - PIPE_GAP - 50 - 100 = 290, hence
    h + PIPE_GAP + 40 <= CANVAS_HEIGHT, whenever the random number is one
    that [Math.random()] returns (0 <= random < 1); and so is every pipe of
    every state the component reaches from its first render. *)
Theorem gap_safety (apiKey : string) :
  CANVAS_HEIGHT - PIPE_GAP - 50 - 100 == 290 /\
  (forall random, 0 <= random -> random < 1 -> gapSafe (spawnPipe random)) /\
  (forall events, Forall wellFormed events ->
     Forall gapSafe (pipesRef (run apiKey mount events))).
Proof.
  split; [ reflexivity | split ].
  - apply spawnPipe_gapSafe.
  - intros events Hwf.
    apply (run_invariant apiKey (fun g => Forall gapSafe (pipesRef g)) wellFormed).
    + intros g e. apply gapSafe_step.
    + exact Hwf.
    + constructor.
Qed.

(** A round started from the first screen, one frame, random number 0.999. *)
Lemma gap_safety_witness :
  gapSafe (spawnPipe 0.999) /\
  Forall gapSafe (pipesRef (run API_KEY_unset mount [Activate; AnimationFrame 0.999 0])).
Proof.
  split.
  - apply (proj1 (proj2 (gap_safety API_KEY_unset))); lra.
  - apply (proj2 (proj2 (gap_safety API_KEY_unset))).
    repeat constructor; simpl; lra.
Defined.

(** ** Score *)

Lemma flagFlips_afterMove pipes :
  flagFlips pipes (map afterMove pipes) = countScores pipes.
Proof.
  unfold flagFlips. induction pipes as [ | p ps IH]; [ reflexivity | ].
  simpl. rewrite passed_afterMove.
  assert (E : (negb (passed p) && (passed p || scores (movePipe p)))%bool
              = scores (movePipe p)).
  { unfold scores. simpl. destruct (passed p); simpl; reflexivity. }
  rewrite E. destruct (scores (movePipe p)).
  - simpl List.length. rewrite Nat2Z.inj_succ, IH. lia.
  - rewrite IH. lia.
Qed.

Lemma scoreInv_step apiKey g e : scoreInv g -> scoreInv (step apiKey g e).
Proof.
  unfold scoreInv. intros [H0 H1]. destruct e as [ | | random sinTime | ai]; simpl.
  - unfold jump. destruct (gameState g); simpl; try (split; [ lia | reflexivity ]).
    + split; assumption.
    + destruct (loadingAi g); simpl; [ split; assumption | split; [ lia | reflexivity ] ].
  - destruct (gameState g); simpl; try (split; assumption). split; [ lia | reflexivity ].
  - destruct (runImpulse_fields g) as (_ & Hs & Hd & _).
    unfold loop. destruct (gameState (runImpulse g)).
    + simpl. rewrite Hs, Hd. split; assumption.
    + rewrite update_score by congruence. rewrite update_scoreRef, Hs.
      split; [ | reflexivity ].
      pose proof (countScores_nonneg (pipesRef (runImpulse g))). lia.
    + rewrite Hs, Hd. split; assumption.
  - unfold feedbackSettled. destruct (inFlight g); [ split; assumption | ].
    destruct (getGameFeedback _ _ _); simpl; split; assumption.
Qed.

(** C6. While a round is being played, no step of the component lowers the
    score: an animation frame adds to it one for each pipe whose
    passed-flag goes from false to true in that frame, and every other
    step (an input, a click, a settled commentary call) leaves it as it
    is.  In every state reached from the first render the score is a
    non-negative integer, and the displayed score equals it. *)
Theorem score_monotone (apiKey : string) :
  (forall g e, gameState g = PLAYING ->
     (scoreRef g <= scoreRef (step apiKey g e))%Z /\
     scoreRef (step apiKey g e) =
       (scoreRef g +
        match e with
        | AnimationFrame random _ =>
            flagFlips (pipesRef (spawning random g))
                      (pipesRef (movement (highScore g) (spawning random g)))
        | _ => 0
        end)%Z) /\
  (forall events,
     (0 <= scoreRef (run apiKey mount events))%Z /\
     score (run apiKey mount events) = scoreRef (run apiKey mount events)).
Proof.
  split.
  - intros g e Hplay.
    assert (K : scoreRef (step apiKey g e) =
       (scoreRef g +
        match e with
        | AnimationFrame random _ =>
            flagFlips (pipesRef (spawning random g))
                      (pipesRef (movement (highScore g) (spawning random g)))
        | _ => 0
        end)%Z /\
        (0 <= match e with
        | AnimationFrame random _ =>
            flagFlips (pipesRef (spawning random g))
                      (pipesRef (movement (highScore g) (spawning random g)))
        | _ => 0
        end)%Z).
    { destruct e as [ | | random sinTime | ai]; simpl.
      - unfold jump. rewrite Hplay. simpl. lia.
      - rewrite Hplay. lia.
      - destruct (runImpulse_fields g) as (Hs & Hr & _ & Hp & _).
        unfold loop. rewrite Hs, Hplay.
        rewrite update_scoreRef, Hr, Hp.
        rewrite movement_pipes, flagFlips_afterMove, countScores_spawning.
        split; [ reflexivity | apply countScores_nonneg ].
      - unfold feedbackSettled. destruct (inFlight g); [ lia | ].
        destruct (getGameFeedback _ _ _); simpl; lia. }
    destruct K as [K1 K2]. split; [ lia | exact K1 ].
  - intros events.
    apply (run_invariant apiKey scoreInv (fun _ => True)).
    + intros g e _. apply scoreInv_step.
    + rewrite Forall_forall. trivial.
    + split; [ simpl; lia | reflexivity ].
Qed.

(** ** Starting and restarting a round *)

(** C1, as the spec states it, fails.  After [firstRound] and the arrival
    of the commentary, the state is GAME_OVER with nothing loading; an
    input restarts the round but queues no impulse, so the velocity is
    still 0 when the first frame begins, where the START-to-PLAYING
    transition from the same cells gives the jump impulse. *)
Lemma restart_impulse_counterexample :
  let g := run API_KEY_unset mount (firstRound ++ [Settled (fun _ _ => ApiRejects)]) in
  gameState g = GAME_OVER /\ loadingAi g = false /\ rafImpulse g = false /\
  gameState (step API_KEY_unset g Activate) = PLAYING /\
  velocity (birdRef (runImpulse (step API_KEY_unset g Activate))) == 0 /\
  ~ velocity (birdRef (runImpulse (step API_KEY_unset g Activate))) == JUMP_STRENGTH /\
  velocity (birdRef (runImpulse (step API_KEY_unset (setGameState START g) Activate)))
    == JUMP_STRENGTH.
Proof.
  vm_compute. repeat split; try reflexivity. intro H. discriminate H.
Qed.

(** C1, amended. An input received in GAME_OVER while the commentary is not
    loading moves to PLAYING with the actor at mid-height with zero
    velocity, the obstacle list empty, score and frame counter zero: the
    state the START-to-PLAYING transition produces, except that no upward
    impulse is queued.  With none pending, the velocity is 0 when the first
    frame begins, whereas after the START-to-PLAYING transition it is the
    jump impulse. *)
Theorem restart_resets_without_impulse (apiKey : string) (g : Game) :
  gameState g = GAME_OVER -> loadingAi g = false ->
  let g' := step apiKey g Activate in
  gameState g' = PLAYING /\
  y (birdRef g') == CANVAS_HEIGHT / 2 /\ y (birdRef g') == 300 /\
  velocity (birdRef g') == 0 /\
  pipesRef g' = [] /\ scoreRef g' = 0%Z /\ score g' = 0%Z /\ frameCountRef g' = 0%Z /\
  rafImpulse g' = rafImpulse g /\
  (rafImpulse g = false -> velocity (birdRef (runImpulse g')) == 0) /\
  step apiKey (setGameState START g) Activate = set_rafImpulse true g' /\
  velocity (birdRef (runImpulse (step apiKey (setGameState START g) Activate)))
    == JUMP_STRENGTH.
Proof.
  intros Hover Hload. simpl. unfold jump. rewrite Hover, Hload. simpl.
  repeat split; try reflexivity.
  intro Hraf. unfold runImpulse. simpl. rewrite Hraf. reflexivity.
Qed.

Lemma restart_resets_without_impulse_witness :
  gameState (step API_KEY_unset crashed Activate) = PLAYING /\
  velocity (birdRef (step API_KEY_unset crashed Activate)) == 0 /\
  pipesRef (step API_KEY_unset crashed Activate) = [].
Proof.
  pose proof (restart_resets_without_impulse API_KEY_unset crashed eq_refl eq_refl) as H.
  simpl in H. destruct H as (A & _ & _ & B & C & _).
  split; [ exact A | split; [ exact B | exact C ] ].
Defined.

(** The guard of [jump]: an input on the game-over screen is ignored while
    the loading flag is set. *)
Lemma jump_ignored_while_loading (g : Game) :
  gameState g = GAME_OVER -> loadingAi g = true -> jump g = g.
Proof. intros H1 H2. unfold jump. rewrite H1, H2. reflexivity. Qed.

(** C8 at a point where it fails.  After [firstRound] the state is
    GAME_OVER with the commentary call in flight.  The input handled by
    [jump] is ignored, but the click on PLAY AGAIN calls [startGame]
    unguarded: the state becomes PLAYING while the call is still awaited. *)
Theorem play_again_restarts_while_loading :
  let g := run API_KEY_unset mount firstRound in
  gameState g = GAME_OVER /\ loadingAi g = true /\ inFlight g = [0%Z] /\
  step API_KEY_unset g Activate = g /\
  gameState (step API_KEY_unset g PlayAgain) = PLAYING /\
  loadingAi (step API_KEY_unset g PlayAgain) = true /\
  inFlight (step API_KEY_unset g PlayAgain) = [0%Z].
Proof. vm_compute. repeat split. Qed.

(** ** The first frame of a round *)

Lemma enters_playing apiKey g e :
  gameState g <> PLAYING -> gameState (step apiKey g e) = PLAYING ->
  pipesRef (step apiKey g e) = [] /\ frameCountRef (step apiKey g e) = 0%Z.
Proof.
  intros Hnot Hplay. destruct e as [ | | random sinTime | ai]; simpl in *.
  - unfold jump in *. destruct (gameState g) eqn:E; simpl in *.
    + split; reflexivity.
    + contradiction.
    + destruct (loadingAi g); simpl in *; [ congruence | split; reflexivity ].
  - destruct (gameState g) eqn:E; simpl in *; try congruence. split; reflexivity.
  - destruct (runImpulse_fields g) as (Hs & _).
    unfold loop in Hplay. rewrite Hs in Hplay. destruct (gameState g) eqn:E.
    + unfold bobbing in Hplay. cbn [gameState set_birdRef] in Hplay. congruence.
    + contradiction.
    + congruence.
  - unfold feedbackSettled in Hplay. destruct (inFlight g); [ contradiction | ].
    destruct (getGameFeedback _ _ _); simpl in Hplay; contradiction.
Qed.

(** C10. On the first frame after any step that enters PLAYING (from the
    start screen or from the game-over screen) the frame counter is 0, the
    spawn test 0 % PIPE_SPAWN_RATE === 0 holds, and exactly one pipe is
    appended at x = CANVAS_WIDTH = 800 and moved by PIPE_SPEED in the same
    frame: after that frame the pipe list holds one pipe, at x = 796.5,
    not yet passed, and the frame counter is 1. *)
Theorem first_tick_spawns (apiKey : string) (g : Game) (e : Event) (random sinTime : Q) :
  gameState g <> PLAYING -> gameState (step apiKey g e) = PLAYING ->
  let g1 := step apiKey g e in
  let g2 := step apiKey g1 (AnimationFrame random sinTime) in
  frameCountRef g1 = 0%Z /\
  (Z.rem (frameCountRef g1) PIPE_SPAWN_RATE =? 0)%Z = true /\
  pipesRef (spawning random g1) = [spawnPipe random] /\
  x (spawnPipe random) == 800 /\
  (exists pipe,
     pipesRef g2 = [pipe] /\ x pipe == 796.5 /\
     topHeight pipe = topHeight (spawnPipe random) /\ passed pipe = false) /\
  frameCountRef g2 = 1%Z.
Proof.
  intros Hnot Hplay g1 g2.
  destruct (enters_playing apiKey g e Hnot Hplay) as [Hp Hf].
  fold g1 in Hp, Hf, Hplay.
  destruct (runImpulse_fields g1) as (Hs & _ & _ & Hp' & Hf' & _).
  assert (E2 : g2 = update random (runImpulse g1)).
  { unfold g2. simpl. unfold loop. rewrite Hs, Hplay. reflexivity. }
  repeat split.
  - exact Hf.
  - rewrite Hf. reflexivity.
  - rewrite spawning_pipes, Hf, Hp. reflexivity.
  - exists (afterMove (spawnPipe random)).
    rewrite E2, update_pipes, spawning_pipes, Hf', Hf, Hp', Hp.
    repeat split.
  - rewrite E2, update_frameCount, Hf', Hf. reflexivity.
Qed.

Lemma first_tick_spawns_witness :
  exists pipe,
    pipesRef (run API_KEY_unset mount [Activate; AnimationFrame 0.25 0]) = [pipe] /\ x pipe == 796.5.
Proof.
  destruct (first_tick_spawns API_KEY_unset mount Activate 0.25 0) as (_ & _ & _ & _ & H & _).
  - discriminate.
  - reflexivity.
  - destruct H as (pipe & H1 & H2 & _). exists pipe. split; [ exact H1 | exact H2 ].
Defined.

(** ** The bird after a frame *)

Lemma update_bird random g : birdRef (update random g) = boundary (physics (birdRef g)).
Proof.
  unfold update. fields.
  set (g4 := pruning (movement (highScore g)
                (spawning random (set_birdRef (physics (birdRef g)) g)))).
  assert (E : birdRef g4 = physics (birdRef g)).
  { unfold g4, pruning. fields.
    destruct (movement_fields (highScore g)
                (spawning random (set_birdRef (physics (birdRef g)) g))) as (_ & -> & _).
    destruct (spawning_fields random (set_birdRef (physics (birdRef g)) g))
      as (_ & _ & _ & -> & _).
    reflexivity. }
  unfold ceiling, ground, boundary. rewrite E.
  destruct (hitsGround (y (physics (birdRef g)))).
  - destruct (gameOver_fields (highScore g)
      (set_birdRef (set_y (CANVAS_HEIGHT - 40 - BIRD_RADIUS) (physics (birdRef g))) g4))
      as (_ & _ & _ & _ & _ & B & _).
    rewrite B. cbn [birdRef set_birdRef y set_y].
    match goal with |- context [if ?c then _ else _] => destruct c end;
      [ reflexivity | exact B ].
  - rewrite E.
    match goal with |- context [if ?c then _ else _] => destruct c end;
      [ reflexivity | exact E ].
Qed.

Lemma update_rafImpulse random g : rafImpulse (update random g) = rafImpulse g.
Proof.
  unfold update. fields.
  set (g2 := spawning random (set_birdRef _ g)).
  destruct (ceiling_fields (ground (highScore g) (pruning (movement (highScore g) g2))))
    as (_ & _ & _ & _ & _ & -> & _).
  destruct (ground_fields (highScore g) (pruning (movement (highScore g) g2)))
    as (_ & _ & _ & _ & -> & _).
  unfold pruning. fields.
  destruct (movement_fields (highScore g) g2) as (_ & _ & _ & -> & _).
  unfold g2. destruct (spawning_fields random (set_birdRef (physics (birdRef g)) g))
    as (_ & _ & _ & _ & _ & -> & _).
  reflexivity.
Qed.

Lemma frame_playing apiKey g random sinTime :
  gameState g = PLAYING ->
  step apiKey g (AnimationFrame random sinTime) = update random (runImpulse g).
Proof.
  intro H. simpl. unfold loop.
  destruct (runImpulse_fields g) as (-> & _). rewrite H. reflexivity.
Qed.

Lemma frame_triggers g :
  triggers (runImpulse g) =
  (countHits (y (integrated g)) (pipesRef g)
   + (if hitsGround (y (integrated g)) then 1 else 0))%nat.
Proof.
  unfold triggers, integrated.
  destruct (runImpulse_fields g) as (_ & _ & _ & -> & _). reflexivity.
Qed.

(** ** Ground clamp *)

Lemma frozenAt_step apiKey g0 g e :
  noInput e -> frozenAt g0 g -> frozenAt g0 (step apiKey g e).
Proof.
  intros He (Hs & Hr & Hb & Hp & Hc & Hf).
  destruct e as [ | | random sinTime | ai]; simpl in *; try contradiction.
  - unfold runImpulse. rewrite Hr. unfold loop. rewrite Hs.
    repeat split; assumption.
  - unfold feedbackSettled. destruct (inFlight g); [ repeat split; assumption | ].
    destruct (getGameFeedback _ _ _); simpl; repeat split; assumption.
Qed.

(** C7. In PLAYING, when the bird's lower bound after the integration of a
    frame reaches or passes the ground line CANVAS_HEIGHT - 40, that frame
    leaves the bird at exactly CANVAS_HEIGHT - 40 - BIRD_RADIUS = 542 and
    the state GAME_OVER; and from then on, as long as no player input
    arrives, no frame changes the bird, the pipes, the score or the frame
    counter. *)
Theorem ground_clamp (apiKey : string) (g : Game) (random sinTime : Q) :
  gameState g = PLAYING ->
  y (integrated g) + BIRD_RADIUS >= CANVAS_HEIGHT - 40 ->
  let g' := step apiKey g (AnimationFrame random sinTime) in
  y (birdRef g') = CANVAS_HEIGHT - 40 - BIRD_RADIUS /\
  y (birdRef g') == 542 /\
  gameState g' = GAME_OVER /\
  forall events, Forall noInput events ->
    let g'' := run apiKey g' events in
    gameState g'' = GAME_OVER /\ birdRef g'' = birdRef g' /\
    pipesRef g'' = pipesRef g' /\ scoreRef g'' = scoreRef g' /\
    frameCountRef g'' = frameCountRef g'.
Proof.
  intros Hplay Hlow g'.
  assert (Hg : hitsGround (y (integrated g)) = true).
  { unfold hitsGround. js_tests. exact Hlow. }
  assert (Ey : y (birdRef g') = CANVAS_HEIGHT - 40 - BIRD_RADIUS).
  { unfold g'. rewrite (frame_playing apiKey g random sinTime Hplay), update_bird.
    fold (integrated g). unfold boundary. rewrite Hg. reflexivity. }
  assert (Es : gameState g' = GAME_OVER).
  { unfold g'. rewrite (frame_playing apiKey g random sinTime Hplay), update_gameState.
    rewrite frame_triggers, Hg.
    rewrite Nat.add_1_r. reflexivity. }
  assert (Er : rafImpulse g' = false).
  { unfold g'. rewrite (frame_playing apiKey g random sinTime Hplay), update_rafImpulse.
    apply runImpulse_fields. }
  split; [ exact Ey | ]. split; [ rewrite Ey; reflexivity | ]. split; [ exact Es | ].
  intros events Hev g''.
  assert (F : frozenAt g' g'').
  { apply (run_invariant apiKey (frozenAt g') noInput).
    - intros h e. apply frozenAt_step.
    - exact Hev.
    - repeat split; assumption. }
  destruct F as (A & _ & B & C & D & E). repeat split; assumption.
Qed.

Lemma ground_clamp_witness :
  y (birdRef (step API_KEY_unset falling (AnimationFrame 0.5 0))) == 542 /\
  gameState (step API_KEY_unset falling (AnimationFrame 0.5 0)) = GAME_OVER /\
  birdRef (run API_KEY_unset (step API_KEY_unset falling (AnimationFrame 0.5 0))
               [AnimationFrame 0.1 0; AnimationFrame 0.2 0])
  = birdRef (step API_KEY_unset falling (AnimationFrame 0.5 0)).
Proof.
  assert (H1 : gameState falling = PLAYING) by reflexivity.
  assert (H2 : y (integrated falling) + BIRD_RADIUS >= CANVAS_HEIGHT - 40)
    by (vm_compute; discriminate).
  pose proof (ground_clamp API_KEY_unset falling 0.5 0 H1 H2) as (_ & A & B & C).
  split; [ exact A | split; [ exact B | ] ].
  apply (C [AnimationFrame 0.1 0; AnimationFrame 0.2 0]).
  repeat constructor.
Defined.

(** ** Collisions *)

Lemma countHits_In birdY pipes pipe :
  In pipe pipes -> hitsPipe birdY (movePipe pipe) = true ->
  exists n, countHits birdY pipes = S n.
Proof.
  induction pipes as [ | p ps IH]; intros Hin Hhit; [ contradiction | ].
  simpl. destruct Hin as [-> | Hin].
  - rewrite Hhit. eexists. reflexivity.
  - destruct (IH Hin Hhit) as [n ->].
    destruct (hitsPipe birdY (movePipe p)); eexists; simpl; reflexivity.
Qed.

(** C3. With the constants of the game (radius 18, bird at x = 100, pipe
    width 60, gap 160): in PLAYING, when a pipe stands at x = 90 after its
    move of the frame with gap-top 200 and the bird is at y = 100 after
    integration, the collision test finds the horizontal overlap
    (118 > 90 and 82 < 150) and the bird above the gap (82 < 200), and the
    frame ends in GAME_OVER. *)
Theorem collision_scenario (apiKey : string) (g : Game) (random sinTime : Q) (pipe : Pipe) :
  gameState g = PLAYING ->
  In pipe (pipesRef g) ->
  x (movePipe pipe) == 90 -> topHeight pipe == 200 ->
  y (integrated g) == 100 ->
  (BIRD_RADIUS == 18 /\ BIRD_X == 100 /\ PIPE_WIDTH == 60 /\ PIPE_GAP == 160) /\
  overlapsX (movePipe pipe) = true /\
  (y (integrated g) - BIRD_RADIUS <? topHeight (movePipe pipe)) = true /\
  hitsPipe (y (integrated g)) (movePipe pipe) = true /\
  gameState (step apiKey g (AnimationFrame random sinTime)) = GAME_OVER.
Proof.
  intros Hplay Hin Hx Htop Hy.
  assert (Ho : overlapsX (movePipe pipe) = true).
  { unfold overlapsX. apply andb_true_iff. split; js_tests; unfold_constants; lra. }
  assert (Hu : (y (integrated g) - BIRD_RADIUS <? topHeight (movePipe pipe)) = true).
  { js_tests. change (topHeight (movePipe pipe)) with (topHeight pipe).
    unfold_constants. lra. }
  assert (Hh : hitsPipe (y (integrated g)) (movePipe pipe) = true).
  { unfold hitsPipe, outsideGap. rewrite Ho, Hu. reflexivity. }
  split; [ repeat split; reflexivity | ].
  split; [ exact Ho | ]. split; [ exact Hu | ]. split; [ exact Hh | ].
  rewrite (frame_playing apiKey g random sinTime Hplay), update_gameState, frame_triggers.
  destruct (countHits_In _ _ _ Hin Hh) as [n ->]. reflexivity.
Qed.

Lemma collision_scenario_witness :
  gameState (step API_KEY_unset aboveGap (AnimationFrame 0.5 0)) = GAME_OVER.
Proof.
  apply (collision_scenario API_KEY_unset aboveGap 0.5 0 (mkPipe 93.5 200 false)).
  - reflexivity.
  - left. reflexivity.
  - reflexivity.
  - reflexivity.
  - reflexivity.
Defined.

(** ** One call of [gameOver] for each trigger *)

(** [bothHit] is a state of play: [longFall] leads to it from the first
    render. *)
Example bothHit_reachable :
  let g := run API_KEY_unset mount longFall in
  (gameState g, score g, highScore g, aiFeedback g, loadingAi g) =
  (gameState bothHit, score bothHit, highScore bothHit, aiFeedback bothHit,
   loadingAi bothHit) /\
  sameBird (birdRef g) (birdRef bothHit) = true /\
  samePipes (pipesRef g) (pipesRef bothHit) = true /\
  (frameCountRef g, scoreRef g, rafImpulse g, inFlight g) =
  (frameCountRef bothHit, scoreRef bothHit, rafImpulse bothHit, inFlight bothHit).
Proof. vm_compute. repeat split. Qed.

(** C2, as the spec states it, fails: in one frame from [bothHit] the pipe
    test and the ground test each call [gameOver], and each call issues a
    commentary request; two requests are in flight after the frame. *)
Lemma double_trigger_counterexample :
  gameState bothHit = PLAYING /\ inFlight bothHit = [] /\
  hitsPipe (y (integrated bothHit)) (movePipe (mkPipe 121 200 false)) = true /\
  hitsGround (y (integrated bothHit)) = true /\
  gameState (step API_KEY_unset bothHit (AnimationFrame 0.5 0)) = GAME_OVER /\
  inFlight (step API_KEY_unset bothHit (AnimationFrame 0.5 0)) = [0%Z; 0%Z] /\
  ~ (List.length (inFlight (step API_KEY_unset bothHit (AnimationFrame 0.5 0))) <= 1)%nat.
Proof.
  repeat split; try reflexivity. vm_compute. lia.
Qed.

(** C2, amended. If a ground collision and a pipe collision are detected in
    the same frame, the state after the frame is GAME_OVER, as after a
    single trigger, but [gameOver] runs once for each trigger: every pipe
    hit and the ground each make the high-score comparison and issue a
    commentary request, so at least two requests are issued in that
    frame. *)
Theorem gameOver_once_per_trigger (apiKey : string) (g : Game) (random sinTime : Q) (pipe : Pipe) :
  gameState g = PLAYING ->
  In pipe (pipesRef g) -> hitsPipe (y (integrated g)) (movePipe pipe) = true ->
  hitsGround (y (integrated g)) = true ->
  let g' := step apiKey g (AnimationFrame random sinTime) in
  gameState g' = GAME_OVER /\
  List.length (inFlight g') =
    (List.length (inFlight g) + countHits (y (integrated g)) (pipesRef g) + 1)%nat /\
  (List.length (inFlight g) + 2 <= List.length (inFlight g'))%nat /\
  gameState (gameOver (highScore g) (gameOver (highScore g) g)) = GAME_OVER /\
  inFlight (gameOver (highScore g) (gameOver (highScore g) g)) =
    inFlight g ++ [scoreRef g; scoreRef g].
Proof.
  intros Hplay Hin Hhit Hground g'.
  assert (El : List.length (inFlight g') =
    (List.length (inFlight g) + countHits (y (integrated g)) (pipesRef g) + 1)%nat).
  { unfold g'. rewrite (frame_playing apiKey g random sinTime Hplay), update_inFlight.
    rewrite frame_triggers, Hground.
    destruct (runImpulse_fields g) as (_ & _ & _ & _ & _ & -> & _). lia. }
  destruct (countHits_In _ _ _ Hin Hhit) as [n Hn].
  split; [ | split; [ exact El | split; [ lia | split ] ] ].
  - unfold g'. rewrite (frame_playing apiKey g random sinTime Hplay), update_gameState.
    rewrite frame_triggers, Hn. reflexivity.
  - apply gameOver_fields.
  - destruct (gameOver_fields (highScore g) (gameOver (highScore g) g))
      as (_ & _ & -> & _).
    destruct (gameOver_fields (highScore g) g) as (_ & _ & -> & -> & _).
    rewrite <- app_assoc. reflexivity.
Qed.

Lemma gameOver_once_per_trigger_witness :
  gameState (step API_KEY_unset bothHit (AnimationFrame 0.5 0)) = GAME_OVER /\
  (List.length (inFlight bothHit) + 2
   <= List.length (inFlight (step API_KEY_unset bothHit (AnimationFrame 0.5 0))))%nat.
Proof.
  pose proof (gameOver_once_per_trigger API_KEY_unset bothHit 0.5 0 (mkPipe 121 200 false)
                eq_refl (or_introl eq_refl) eq_refl eq_refl) as (A & _ & B & _).
  split; [ exact A | exact B ].
Defined.

(** ** The requests issued by a frame *)

Lemma pipeBody_inFlight_suffix hs g pipe :
  inFlight (fst (pipeBody hs g pipe)) =
  inFlight g ++ (if hitsPipe (y (birdRef g)) (movePipe pipe) then [scoreRef g] else []).
Proof.
  unfold pipeBody.
  destruct (hitsPipe _ _), (scores _); simpl;
    try destruct (_ >? _)%Z; simpl; rewrite ?app_nil_r; reflexivity.
Qed.

Lemma forEachPipe_inFlight_suffix hs pipes : forall g,
  exists l, inFlight (fst (forEachPipe hs g pipes)) = inFlight g ++ l /\
            List.length l = countHits (y (birdRef g)) pipes.
Proof.
  induction pipes as [ | pipe rest IH]; intro g.
  - exists []. simpl. rewrite app_nil_r. split; reflexivity.
  - rewrite forEachPipe_cons. simpl fst.
    destruct (IH (fst (pipeBody hs g pipe))) as (l & -> & Hl).
    rewrite pipeBody_inFlight_suffix, <- app_assoc.
    eexists. split; [ reflexivity | ].
    rewrite length_app, Hl.
    destruct (pipeBody_frame hs g pipe) as (-> & _). simpl.
    destruct (hitsPipe _ _); reflexivity.
Qed.

Lemma ground_inFlight_suffix hs g :
  inFlight (ground hs g) =
  inFlight g ++ (if hitsGround (y (birdRef g)) then [scoreRef g] else []).
Proof.
  unfold ground. destruct (hitsGround _).
  - unfold gameOver. simpl. destruct (_ >? _)%Z; reflexivity.
  - rewrite app_nil_r. reflexivity.
Qed.

Lemma update_inFlight_suffix random g :
  exists l, inFlight (update random g) = inFlight g ++ l /\ List.length l = triggers g.
Proof.
  unfold update, triggers. fields.
  set (g2 := spawning random (set_birdRef _ g)).
  destruct (ceiling_fields (ground (highScore g) (pruning (movement (highScore g) g2))))
    as (_ & _ & _ & _ & _ & _ & ->).
  rewrite ground_inFlight_suffix.
  unfold pruning. fields.
  rewrite movement_eq. simpl.
  destruct (forEachPipe_inFlight_suffix (highScore g) (pipesRef g2) g2) as (l & -> & Hl).
  destruct (forEachPipe_frame (highScore g) (pipesRef g2) g2) as (-> & _).
  assert (B : birdRef g2 = physics (birdRef g)) by apply spawning_fields.
  assert (I : inFlight g2 = inFlight g).
  { unfold g2.
    destruct (spawning_fields random (set_birdRef (physics (birdRef g)) g))
      as (_ & _ & _ & _ & _ & _ & -> & _).
    reflexivity. }
  rewrite B in *. rewrite I, <- app_assoc.
  eexists. split; [ reflexivity | ].
  rewrite length_app, Hl. unfold g2. rewrite countHits_spawning. simpl.
  destruct (hitsGround _); reflexivity.
Qed.

(** ** Passing a pipe *)




(** The whole passage, frame by frame: from [inGap] without input the score
    is 0 for fifteen frames, becomes 1 at the sixteenth, when the pipe
    reaches x = 37.5, and is 1 ever after; the bird, still falling, meets
    the lower pipe at the nineteenth frame. *)
Example pass_through_run :
  map (fun n => let g := run API_KEY_unset inGap (repeat (AnimationFrame 0.5 0) n) in
                (gameState g, scoreRef g))
      [1; 15; 16; 17; 18; 19; 40]%nat
  = [(PLAYING, 0%Z); (PLAYING, 0%Z); (PLAYING, 1%Z); (PLAYING, 1%Z);
     (PLAYING, 1%Z); (GAME_OVER, 1%Z); (GAME_OVER, 1%Z)].
Proof. vm_compute. reflexivity. Qed.

Lemma score_monotone_witness :
  (scoreRef clearing <= scoreRef (step API_KEY_unset clearing (AnimationFrame 0.5 0)))%Z /\
  scoreRef (step API_KEY_unset clearing (AnimationFrame 0.5 0)) = (scoreRef clearing + 1)%Z /\
  scoreRef (step API_KEY_unset clearing Activate) = scoreRef clearing.
Proof.
  pose proof (score_monotone API_KEY_unset) as [A _].
  destruct (A clearing (AnimationFrame 0.5 0) eq_refl) as [A1 A2].
  destruct (A clearing Activate eq_refl) as [_ A3].
  split; [ exact A1 | split; [ exact A2 | ] ].
  rewrite A3. apply Z.add_0_r.
Defined.

(** After the double call of [gameOver] from [bothHit], the first call to
    settle clears the loading flag while the second is still awaited, and
    [jump] then restarts the round with a request in flight. *)
Example restart_with_request_in_flight :
  let g := run API_KEY_unset bothHit
             [AnimationFrame 0.5 0; Settled (fun _ _ => ApiRejects)] in
  gameState g = GAME_OVER /\ loadingAi g = false /\ inFlight g = [0%Z] /\
  gameState (step API_KEY_unset g Activate) = PLAYING /\
  inFlight (step API_KEY_unset g Activate) = [0%Z].
Proof. vm_compute. repeat split. Qed.

(** ** The layout of the pipes *)

Lemma inject_Z_le (a b : Z) : (a <= b)%Z -> inject_Z a <= inject_Z b.
Proof. intro H. rewrite <- Zle_Qle. exact H. Qed.

Lemma inject_Z_succ (a : Z) : inject_Z (a + 1) == inject_Z a + 1.
Proof. rewrite inject_Z_plus. reflexivity. Qed.

Lemma x_movePipe pipe : x (movePipe pipe) = x pipe - PIPE_SPEED.
Proof. reflexivity. Qed.

(** A pipe of age [age] scores in the frame that makes its age 218. *)
Lemma scores_at_age pipe age :
  x pipe == xAtAge age -> passed pipe = (218 <=? age)%Z ->
  scores (movePipe pipe) = (age =? 217)%Z.
Proof.
  intros Hx Hp. unfold scores. change (passed (movePipe pipe)) with (passed pipe).
  rewrite Hp, x_movePipe. unfold xAtAge in Hx. unfold_constants.
  destruct (218 <=? age)%Z eqn:E1.
  - apply Z.leb_le in E1. simpl. symmetry. apply Z.eqb_neq. lia.
  - apply Z.leb_gt in E1. simpl.
    destruct (age =? 217)%Z eqn:E2.
    + apply Z.eqb_eq in E2. subst age. js_tests. rewrite Hx. reflexivity.
    + apply Z.eqb_neq in E2. js_tests.
      assert (H : inject_Z age <= inject_Z 216) by (apply inject_Z_le; lia).
      change (inject_Z 216) with 216 in H. lra.
Qed.

(** A pipe of age [age] stays in the list while its age is at most 245. *)
Lemma kept_at_age pipe age :
  x pipe == xAtAge age ->
  (x (afterMove pipe) >? - PIPE_WIDTH) = (age + 1 <=? 245)%Z.
Proof.
  intro Hx. rewrite x_afterMove. unfold xAtAge in Hx. unfold_constants.
  destruct (age + 1 <=? 245)%Z eqn:E.
  - apply Z.leb_le in E. js_tests.
    assert (H : inject_Z age <= inject_Z 244) by (apply inject_Z_le; lia).
    change (inject_Z 244) with 244 in H. lra.
  - apply Z.leb_gt in E. js_tests.
    assert (H : inject_Z 245 <= inject_Z age) by (apply inject_Z_le; lia).
    change (inject_Z 245) with 245 in H. lra.
Qed.

(** A pipe of age [age] overlaps the bird after its move only for
    194 <= age <= 221. *)
Lemma overlaps_at_age pipe age :
  x pipe == xAtAge age ->
  overlapsX (movePipe pipe) = ((194 <=? age) && (age <=? 221))%Z%bool.
Proof.
  intro Hx. unfold overlapsX. rewrite x_movePipe. unfold xAtAge in Hx. unfold_constants.
  destruct (194 <=? age)%Z eqn:E1; destruct (age <=? 221)%Z eqn:E2; simpl.
  - apply Z.leb_le in E1. apply Z.leb_le in E2.
    apply andb_true_iff. split; js_tests.
    + assert (H : inject_Z 194 <= inject_Z age) by (apply inject_Z_le; lia).
      change (inject_Z 194) with 194 in H. lra.
    + assert (H : inject_Z age <= inject_Z 221) by (apply inject_Z_le; lia).
      change (inject_Z 221) with 221 in H. lra.
  - apply Z.leb_gt in E2. apply andb_false_iff. right. js_tests.
    assert (H : inject_Z 222 <= inject_Z age) by (apply inject_Z_le; lia).
    change (inject_Z 222) with 222 in H. lra.
  - apply Z.leb_gt in E1. apply andb_false_iff. left. js_tests.
    assert (H : inject_Z age <= inject_Z 193) by (apply inject_Z_le; lia).
    change (inject_Z 193) with 193 in H. lra.
  - apply Z.leb_gt in E1. apply Z.leb_gt in E2. lia.
Qed.

(** One frame makes every pipe one move older and drops the pipe that
    reaches age 246. *)
Lemma layout_move fc : forall l age,
  layout fc age l ->
  layout (fc + 1) (age + 1) (filter (fun p => x p >? - PIPE_WIDTH) (map afterMove l)).
Proof.
  induction l as [ | pipe older IH]; intros age H.
  - simpl in *. lia.
  - destruct H as (H1 & H2 & Hx & Hp & Hold).
    cbn [map filter]. rewrite (kept_at_age pipe age Hx).
    destruct (age + 1 <=? 245)%Z eqn:E.
    + apply Z.leb_le in E. cbn [layout]. repeat split; try lia.
      * rewrite x_afterMove, Hx. unfold xAtAge. rewrite inject_Z_succ. ring.
      * rewrite passed_afterMove, (scores_at_age pipe age Hx Hp), Hp.
        destruct (218 <=? age)%Z eqn:A; destruct (age =? 217)%Z eqn:B;
          destruct (218 <=? age + 1)%Z eqn:C; try reflexivity;
          try apply Z.leb_le in A; try apply Z.leb_gt in A;
          try apply Z.eqb_eq in B; try apply Z.eqb_neq in B;
          try apply Z.leb_le in C; try apply Z.leb_gt in C; lia.
      * replace (age + 1 + PIPE_SPAWN_RATE)%Z with (age + PIPE_SPAWN_RATE + 1)%Z by lia.
        apply IH. exact Hold.
    + apply Z.leb_gt in E.
      destruct older as [ | q older'].
      * simpl. lia.
      * destruct Hold as (K & _). unfold PIPE_SPAWN_RATE in K. lia.
Qed.

Lemma countScores_rev pipes : countScores (rev pipes) = countScores pipes.
Proof.
  induction pipes as [ | p ps IH]; [ reflexivity | ].
  simpl. rewrite countScores_app, IH. simpl. lia.
Qed.

Lemma countHits_rev birdY pipes : countHits birdY (rev pipes) = countHits birdY pipes.
Proof.
  induction pipes as [ | p ps IH]; [ reflexivity | ].
  simpl. rewrite countHits_app, IH. simpl. lia.
Qed.

(** In a frame the score grows by one exactly when there is a pipe of age
    217. *)
Lemma countScores_layout fc : forall l age,
  (0 <= age)%Z -> layout fc age l ->
  countScores l =
  if ((age <=? 217) && (217 <=? fc) && ((217 - age) mod 100 =? 0))%Z%bool
  then 1%Z else 0%Z.
Proof.
  induction l as [ | pipe older IH]; intros age H0 H.
  - simpl in H. simpl countScores.
    destruct (age <=? 217)%Z eqn:A; destruct (217 <=? fc)%Z eqn:B; simpl; try reflexivity.
    apply Z.leb_le in A. apply Z.leb_le in B. lia.
  - destruct H as (H1 & H2 & Hx & Hp & Hold).
    cbn [countScores]. rewrite (scores_at_age pipe age Hx Hp).
    rewrite (IH (age + PIPE_SPAWN_RATE)%Z) by (unfold PIPE_SPAWN_RATE; lia || exact Hold).
    unfold PIPE_SPAWN_RATE.
    destruct (age =? 217)%Z eqn:E.
    + apply Z.eqb_eq in E. subst age.
      assert (B : (217 <=? fc)%Z = true) by (apply Z.leb_le; exact H2).
      rewrite B. reflexivity.
    + apply Z.eqb_neq in E.
      replace ((217 - (age + 100)) mod 100)%Z with ((217 - age) mod 100)%Z
        by (rewrite <- (Z.mod_add (217 - (age + 100)) 1 100) by lia; f_equal; lia).
      destruct ((217 - age) mod 100 =? 0)%Z eqn:M.
      * apply Z.eqb_eq in M.
        assert (A : (age <=? 217)%Z = (age + 100 <=? 217)%Z).
        { destruct (age <=? 217)%Z eqn:A1; destruct (age + 100 <=? 217)%Z eqn:A2;
            try reflexivity;
            try apply Z.leb_le in A1; try apply Z.leb_gt in A1;
            try apply Z.leb_le in A2; try apply Z.leb_gt in A2; try lia.
          exfalso. revert M. Z.div_mod_to_equations. lia. }
        rewrite A. lia.
      * rewrite !andb_false_r. reflexivity.
Qed.

(** At most one pipe overlaps the bird. *)
Lemma countHits_layout birdY fc : forall l age,
  layout fc age l ->
  (countHits birdY l <= if (age <=? 221)%Z then 1 else 0)%nat.
Proof.
  induction l as [ | pipe older IH]; intros age H.
  - simpl. lia.
  - destruct H as (H1 & H2 & Hx & Hp & Hold).
    cbn [countHits]. specialize (IH _ Hold). unfold PIPE_SPAWN_RATE in IH.
    unfold hitsPipe. rewrite (overlaps_at_age pipe age Hx).
    destruct (194 <=? age)%Z eqn:A; destruct (age <=? 221)%Z eqn:B;
      destruct (age + 100 <=? 221)%Z eqn:C; simpl;
      try apply Z.leb_le in A; try apply Z.leb_gt in A;
      try apply Z.leb_le in B; try apply Z.leb_gt in B;
      try apply Z.leb_le in C; try apply Z.leb_gt in C; try lia;
      destruct (outsideGap birdY (movePipe pipe)); lia.
Qed.

Lemma newestAge_spawn fc :
  (0 <= fc)%Z -> (Z.rem fc PIPE_SPAWN_RATE =? 0)%Z = true ->
  newestAge fc = 100%Z /\ newestAge (fc + 1) = 1%Z.
Proof.
  intros H0 H. apply Z.eqb_eq in H. unfold newestAge, PIPE_SPAWN_RATE in *.
  rewrite Z.rem_mod_nonneg in H by lia.
  replace (fc + 1 - 1)%Z with fc by lia.
  split; [ | lia ].
  revert H. Z.to_euclidean_division_equations. lia.
Qed.

Lemma newestAge_no_spawn fc :
  (0 <= fc)%Z -> (Z.rem fc PIPE_SPAWN_RATE =? 0)%Z = false ->
  newestAge (fc + 1) = (newestAge fc + 1)%Z.
Proof.
  intros H0 H. apply Z.eqb_neq in H. unfold newestAge, PIPE_SPAWN_RATE in *.
  rewrite Z.rem_mod_nonneg in H by lia.
  replace (fc + 1 - 1)%Z with fc by lia.
  revert H. Z.to_euclidean_division_equations. lia.
Qed.

Lemma newestAge_range fc : (1 <= newestAge fc <= 100)%Z.
Proof. unfold newestAge, PIPE_SPAWN_RATE. Z.to_euclidean_division_equations. lia. Qed.

Lemma scoreAt_succ fc :
  (0 <= fc)%Z ->
  scoreAt (fc + 1) =
  (scoreAt fc +
   if ((newestAge fc <=? 217) && (217 <=? fc) && ((217 - newestAge fc) mod 100 =? 0))%Z%bool
   then 1 else 0)%Z.
Proof.
  intro H0. pose proof (newestAge_range fc) as R.
  assert (A : (newestAge fc <=? 217)%Z = true) by (apply Z.leb_le; lia).
  rewrite A. cbn [andb]. clear A.
  unfold scoreAt, newestAge, PIPE_SPAWN_RATE in *.
  destruct (217 <=? fc)%Z eqn:B; cbn [andb].
  - apply Z.leb_le in B.
    destruct (fc + 1 <? 218)%Z eqn:C; [ apply Z.ltb_lt in C; lia | ].
    destruct ((217 - ((fc - 1) mod 100 + 1)) mod 100 =? 0)%Z eqn:D.
    + apply Z.eqb_eq in D.
      destruct (fc <? 218)%Z eqn:E.
      * apply Z.ltb_lt in E. assert (fc = 217%Z) by lia. subst fc. reflexivity.
      * apply Z.ltb_ge in E. revert D. Z.to_euclidean_division_equations. lia.
    + apply Z.eqb_neq in D.
      destruct (fc <? 218)%Z eqn:E.
      * apply Z.ltb_lt in E. assert (fc = 217%Z) by lia. subst fc.
        exfalso. apply D. reflexivity.
      * apply Z.ltb_ge in E. revert D. Z.to_euclidean_division_equations. lia.
  - apply Z.leb_gt in B.
    destruct (fc + 1 <? 218)%Z eqn:C; [ | apply Z.ltb_ge in C; lia ].
    destruct (fc <? 218)%Z eqn:E; [ lia | apply Z.ltb_ge in E; lia ].
Qed.

Lemma laidOut_update random g : laidOut g -> laidOut (update random g).
Proof.
  intros (H0 & HL & HS). unfold laidOut.
  rewrite update_frameCount, update_pipes, update_scoreRef.
  split; [ lia | split ].
  - rewrite <- filter_rev, <- map_rev, spawning_pipes.
    destruct (Z.rem (frameCountRef g) PIPE_SPAWN_RATE =? 0)%Z eqn:E.
    + destruct (newestAge_spawn _ H0 E) as [A1 A2].
      rewrite A2, rev_app_distr. cbn [rev app].
      change 1%Z with (0 + 1)%Z. apply layout_move.
      cbn [layout]. rewrite A1 in HL.
      repeat split; try lia; try reflexivity. exact HL.
    + rewrite (newestAge_no_spawn _ H0 E). apply layout_move. exact HL.
  - rewrite <- countScores_rev.
    assert (A0 : (0 <= newestAge (frameCountRef g))%Z)
      by (pose proof (newestAge_range (frameCountRef g)); lia).
    rewrite (countScores_layout _ _ _ A0 HL).
    rewrite HS, scoreAt_succ by exact H0. reflexivity.
Qed.

Lemma laidOut_reset g : laidOut (startGame g).
Proof.
  unfold laidOut. cbn. repeat split; lia.
Qed.

Lemma laidOut_step apiKey g e : laidOut g -> laidOut (step apiKey g e).
Proof.
  intro H. destruct e as [ | | random sinTime | ai]; cbn [step].
  - unfold jump. destruct (gameState g).
    + apply (laidOut_reset g).
    + exact H.
    + destruct (loadingAi g); [ exact H | apply laidOut_reset ].
  - destruct (gameState g); try exact H. apply laidOut_reset.
  - assert (K : laidOut (runImpulse g)).
    { unfold laidOut.
      destruct (runImpulse_fields g) as (_ & -> & _ & -> & -> & _). exact H. }
    unfold loop. destruct (gameState (runImpulse g)).
    + exact K.
    + apply laidOut_update, K.
    + exact K.
  - unfold feedbackSettled. destruct (inFlight g); [ exact H | ].
    destruct (getGameFeedback _ _ _); exact H.
Qed.

Lemma laidOut_run apiKey events : laidOut (run apiKey mount events).
Proof.
  apply (run_invariant apiKey laidOut (fun _ => True)).
  - intros g e _. apply laidOut_step.
  - rewrite Forall_forall. trivial.
  - unfold laidOut. cbn. repeat split; lia.
Qed.

Lemma layout_spaced fc : forall l age, layout fc age l -> spacedBack l.
Proof.
  induction l as [ | newer rest IH]; intros age H; [ exact I | ].
  destruct H as (_ & _ & Hx & _ & Hold).
  destruct rest as [ | older rest']; [ exact I | ].
  split; [ | apply (IH _ Hold) ].
  destruct Hold as (_ & _ & Hx' & _).
  rewrite Hx, Hx'. unfold xAtAge, PIPE_SPAWN_RATE. unfold_constants.
  rewrite inject_Z_plus. change (inject_Z 100) with 100. ring.
Qed.

Lemma layout_places fc : forall l age,
  (1 <= age)%Z -> layout fc age l ->
  Forall (fun p => - PIPE_WIDTH < x p /\ x p <= CANVAS_WIDTH - PIPE_SPEED /\
                   (passed p = true <-> x p + PIPE_WIDTH < BIRD_X)) l.
Proof.
  induction l as [ | pipe older IH]; intros age H1 H; [ constructor | ].
  destruct H as (Hu & _ & Hx & Hp & Hold).
  constructor; [ | apply (IH (age + PIPE_SPAWN_RATE)%Z); [ unfold PIPE_SPAWN_RATE; lia | exact Hold ] ].
  assert (L : inject_Z 1 <= inject_Z age) by (apply inject_Z_le; lia).
  assert (U : inject_Z age <= inject_Z 245) by (apply inject_Z_le; lia).
  change (inject_Z 1) with 1 in L. change (inject_Z 245) with 245 in U.
  unfold xAtAge in Hx. unfold_constants.
  split; [ lra | split; [ lra | ] ].
  rewrite Hp. split; intro K.
  - apply Z.leb_le in K.
    assert (V : inject_Z 218 <= inject_Z age) by (apply inject_Z_le; lia).
    change (inject_Z 218) with 218 in V. lra.
  - apply Z.leb_le. apply Z.nlt_ge. intro C.
    assert (V : inject_Z age <= inject_Z 217) by (apply inject_Z_le; lia).
    change (inject_Z 217) with 217 in V. lra.
Qed.

Lemma layout_length fc l age :
  (1 <= age)%Z -> layout fc age l -> (List.length l <= 3)%nat.
Proof.
  intros H1 H.
  destruct l as [ | p1 [ | p2 [ | p3 [ | p4 l' ] ] ] ]; simpl; try lia.
  destruct H as (_ & _ & _ & _ & _ & _ & _ & _ & _ & _ & _ & _ & H & _).
  unfold PIPE_SPAWN_RATE in H. lia.
Qed.

(** X1. In every state reached from the first render, whatever the inputs
    and random numbers: reading the pipe list from the newest to the
    oldest, each pipe is exactly 350 px left of the one before; every pipe
    lies with -60 < x <= 796.5; its passed-flag is set exactly when its
    trailing edge is left of the bird; and the list never holds more than
    three pipes. *)
Theorem pipes_laid_out (apiKey : string) (events : list Event) :
  let g := run apiKey mount events in
  spacedBack (rev (pipesRef g)) /\
  Forall (fun p => - PIPE_WIDTH < x p /\ x p <= CANVAS_WIDTH - PIPE_SPEED /\
                   (passed p = true <-> x p + PIPE_WIDTH < BIRD_X)) (pipesRef g) /\
  (List.length (pipesRef g) <= 3)%nat.
Proof.
  intro g. destruct (laidOut_run apiKey events) as (_ & HL & _). fold g in HL.
  pose proof (newestAge_range (frameCountRef g)) as [R _].
  split; [ apply (layout_spaced _ _ _ HL) | split ].
  - rewrite <- (rev_involutive (pipesRef g)). apply Forall_rev.
    apply (layout_places _ _ _ R HL).
  - rewrite <- length_rev. apply (layout_length _ _ _ R HL).
Qed.

(** X2. In every state reached from the first render the score is
    determined by the frame counter of the round: 0 while the counter is
    below 218, and (counter - 218) / 100 + 1 from then on. *)
Theorem score_from_frame_counter (apiKey : string) (events : list Event) :
  let g := run apiKey mount events in
  (0 <= frameCountRef g)%Z /\
  scoreRef g = (if (frameCountRef g <? 218)%Z then 0
                else (frameCountRef g - 218) / 100 + 1)%Z.
Proof.
  intro g. destruct (laidOut_run apiKey events) as (H0 & _ & HS).
  split; [ exact H0 | exact HS ].
Qed.

(** X3. From a state reached from the first render, no step issues more
    than two commentary requests: in a frame at most one pipe can be hit,
    and the ground adds at most one call of [gameOver]. *)
Theorem at_most_two_requests (apiKey : string) (events : list Event) (e : Event) :
  let g := run apiKey mount events in
  (triggers (runImpulse g) <= 2)%nat /\
  (List.length (inFlight (step apiKey g e)) <= List.length (inFlight g) + 2)%nat.
Proof.
  intro g. destruct (laidOut_run apiKey events) as (_ & HL & _). fold g in HL.
  clearbody g.
  assert (T : (triggers (runImpulse g) <= 2)%nat).
  { rewrite frame_triggers.
    pose proof (countHits_layout (y (integrated g)) _ _ _ HL) as K.
    rewrite countHits_rev in K.
    destruct (newestAge (frameCountRef g) <=? 221)%Z; destruct (hitsGround _); lia. }
  split; [ exact T | ].
  destruct e as [ | | random sinTime | ai]; cbn [step].
  - unfold jump. destruct (gameState g); cbn; try lia.
    destruct (loadingAi g); cbn; lia.
  - destruct (gameState g); cbn; lia.
  - destruct (runImpulse_fields g) as (_ & _ & _ & _ & _ & Hi & _).
    unfold loop. destruct (gameState (runImpulse g)).
    + cbn. rewrite Hi. lia.
    + rewrite update_inFlight, Hi. lia.
    + rewrite Hi. lia.
  - unfold feedbackSettled. destruct (inFlight g) as [ | sc rest] eqn:E.
    + rewrite E. lia.
    + destruct (getGameFeedback _ _ _); cbn; lia.
Qed.

(** ** The bird *)

Lemma boundary_inField b :
  BIRD_RADIUS <= y (boundary b) /\ y (boundary b) <= CANVAS_HEIGHT - 40 - BIRD_RADIUS.
Proof.
  unfold boundary, hitsGround.
  destruct (y b + BIRD_RADIUS >=? CANVAS_HEIGHT - 40) eqn:G; cbn [y set_y].
  - destruct (CANVAS_HEIGHT - 40 - BIRD_RADIUS - BIRD_RADIUS <=? 0) eqn:C;
      cbn [y set_y set_velocity]; js_tests; unfold_constants; lra.
  - destruct (y b - BIRD_RADIUS <=? 0) eqn:C;
      cbn [y set_y set_velocity]; js_tests; unfold_constants; lra.
Qed.

Lemma rotation_boundary b : rotation (boundary b) = rotation b.
Proof.
  unfold boundary. destruct (hitsGround (y b)); cbn [y set_y];
    match goal with |- context [if ?c then _ else _] => destruct c end; reflexivity.
Qed.

Lemma physics_tilt b :
  - Math_PI / 4 <= rotation (physics b) /\ rotation (physics b) <= Math_PI / 4.
Proof.
  unfold physics. cbn [rotation set_rotation]. split.
  - apply Q.min_glb; [ vm_compute; discriminate | apply Q.le_max_l ].
  - apply Q.le_min_l.
Qed.

Lemma inField_reset g : inField (startGame g).
Proof.
  unfold inField, startGame, resetGame. fields. split; vm_compute; discriminate.
Qed.

Lemma inField_step apiKey g e : sineInRange e -> inField g -> inField (step apiKey g e).
Proof.
  intros He H. destruct e as [ | | random sinTime | ai]; cbn [step].
  - unfold jump. destruct (gameState g).
    + apply (inField_reset g).
    + exact H.
    + destruct (loadingAi g); [ exact H | apply inField_reset ].
  - destruct (gameState g); try exact H. apply inField_reset.
  - assert (K : inField (runImpulse g)).
    { unfold inField. destruct (runImpulse_fields g) as (_ & _ & _ & _ & _ & _ & _ & _ & -> & _).
      exact H. }
    unfold loop. destruct (gameState (runImpulse g)).
    + unfold inField, bobbing. cbn [birdRef set_birdRef y set_y set_rotation].
      destruct He as [Hl Hu].
      assert (E : CANVAS_HEIGHT / 2 == 300) by reflexivity.
      rewrite E. unfold_constants. lra.
    + unfold inField. rewrite update_bird. apply boundary_inField.
    + exact K.
  - unfold feedbackSettled. destruct (inFlight g); [ exact H | ].
    destruct (getGameFeedback _ _ _); exact H.
Qed.

Lemma tilted_step apiKey g e : tilted g -> tilted (step apiKey g e).
Proof.
  intro H.
  assert (Z0 : - Math_PI / 4 <= 0 /\ 0 <= Math_PI / 4) by (split; vm_compute; discriminate).
  destruct e as [ | | random sinTime | ai]; cbn [step].
  - unfold jump. destruct (gameState g).
    + exact Z0.
    + exact H.
    + destruct (loadingAi g); [ exact H | exact Z0 ].
  - destruct (gameState g); try exact H. exact Z0.
  - assert (K : tilted (runImpulse g)).
    { unfold tilted, runImpulse. destruct (rafImpulse g); exact H. }
    unfold loop. destruct (gameState (runImpulse g)).
    + exact Z0.
    + unfold tilted. rewrite update_bird, rotation_boundary. apply physics_tilt.
    + exact K.
  - unfold feedbackSettled. destruct (inFlight g); [ exact H | ].
    destruct (getGameFeedback _ _ _); exact H.
Qed.

(** X4. In every state reached from the first render by frames whose sine
    input lies in [-1, 1], the bird's centre is between the ceiling and the
    ground line: BIRD_RADIUS <= y <= CANVAS_HEIGHT - 40 - BIRD_RADIUS, that
    is 18 <= y <= 542. *)
Theorem bird_stays_in_field (apiKey : string) (events : list Event) :
  Forall sineInRange events ->
  let g := run apiKey mount events in
  18 <= y (birdRef g) /\ y (birdRef g) <= 542.
Proof.
  intros H g.
  assert (K : inField g).
  { apply (run_invariant apiKey inField sineInRange).
    - intros h e. apply inField_step.
    - exact H.
    - unfold inField, mount, initialBird. fields. split; vm_compute; discriminate. }
  unfold inField in K. unfold_constants. lra.
Qed.

Lemma bird_stays_in_field_witness :
  18 <= y (birdRef (run API_KEY_unset mount [AnimationFrame 0.5 1; Activate;
                                             AnimationFrame 0.5 0])) /\
  y (birdRef (run API_KEY_unset mount [AnimationFrame 0.5 1; Activate;
                                       AnimationFrame 0.5 0])) <= 542.
Proof.
  apply (bird_stays_in_field API_KEY_unset
           [AnimationFrame 0.5 1; Activate; AnimationFrame 0.5 0]).
  repeat constructor; simpl; lra.
Defined.

(** X5. In every state reached from the first render the drawing angle of
    the bird is clamped: -Math.PI/4 <= rotation <= Math.PI/4. *)
Theorem rotation_clamped (apiKey : string) (events : list Event) :
  let g := run apiKey mount events in
  - Math_PI / 4 <= rotation (birdRef g) /\ rotation (birdRef g) <= Math_PI / 4.
Proof.
  intro g.
  apply (run_invariant apiKey tilted (fun _ => True)).
  - intros h e _. apply tilted_step.
  - rewrite Forall_forall. trivial.
  - split; vm_compute; discriminate.
Qed.

(** X6. Ceiling.  In PLAYING, when the bird's upper bound after integration
    is at or above the top of the canvas (y - BIRD_RADIUS <= 0), the frame
    leaves the bird at y = BIRD_RADIUS with velocity 0, the ground test
    does not fire, and the state stays PLAYING unless a pipe is hit in the
    same frame. *)
Theorem ceiling_bonk (apiKey : string) (g : Game) (random sinTime : Q) :
  gameState g = PLAYING ->
  y (integrated g) - BIRD_RADIUS <= 0 ->
  let g' := step apiKey g (AnimationFrame random sinTime) in
  y (birdRef g') = BIRD_RADIUS /\ velocity (birdRef g') = 0 /\
  hitsGround (y (integrated g)) = false /\
  gameState g' =
    match countHits (y (integrated g)) (pipesRef g) with
    | O => PLAYING
    | S _ => GAME_OVER
    end.
Proof.
  intros Hplay Hup g'. unfold g'.
  rewrite (frame_playing apiKey g random sinTime Hplay).
  assert (G : hitsGround (y (integrated g)) = false).
  { unfold hitsGround. js_tests. unfold_constants. lra. }
  assert (C : (y (integrated g) - BIRD_RADIUS <=? 0) = true) by (js_tests; exact Hup).
  rewrite update_bird, update_gameState, frame_triggers, G.
  fold (integrated g). unfold boundary. rewrite G, C.
  cbn [y velocity set_y set_velocity].
  repeat split.
  destruct (runImpulse_fields g) as (-> & _). rewrite Hplay, Nat.add_0_r.
  destruct (countHits _ _); reflexivity.
Qed.

(** A bird rising at 12 px per frame from y = 25, no pipes. *)
Lemma ceiling_bonk_witness :
  let g := mkGame PLAYING 0 0 EmptyString false (mkBird 25 (-12) 0) [] 130 0 false [] in
  y (birdRef (step API_KEY_unset g (AnimationFrame 0.5 0))) = BIRD_RADIUS /\
  velocity (birdRef (step API_KEY_unset g (AnimationFrame 0.5 0))) = 0 /\
  gameState (step API_KEY_unset g (AnimationFrame 0.5 0)) = PLAYING.
Proof.
  intro g.
  assert (H1 : gameState g = PLAYING) by reflexivity.
  assert (H2 : y (integrated g) - BIRD_RADIUS <= 0) by (vm_compute; discriminate).
  destruct (ceiling_bonk API_KEY_unset g 0.5 0 H1 H2) as (A & B & _ & C).
  split; [ exact A | split; [ exact B | exact C ] ].
Defined.


(** ** The high score *)

Lemma gameOver_raised hs0 g :
  raised hs0 g ->
  raised hs0 (gameOver hs0 g) /\ highScore (gameOver hs0 g) = Z.max hs0 (scoreRef g).
Proof.
  unfold raised, gameOver. fields.
  destruct (scoreRef g >? hs0)%Z eqn:E; fields; intros [H | H].
  - apply Z.gtb_lt in E. split; [ right; lia | lia ].
  - apply Z.gtb_lt in E. split; [ right; lia | lia ].
  - rewrite Z.gtb_ltb in E. apply Z.ltb_ge in E. split; [ left; exact H | lia ].
  - rewrite Z.gtb_ltb in E. apply Z.ltb_ge in E. lia.
Qed.

Lemma pipeBody_raised hs0 g pipe :
  raised hs0 g -> raised hs0 (fst (pipeBody hs0 g pipe)).
Proof.
  intro H. unfold pipeBody.
  assert (K : raised hs0 (if hitsPipe (y (birdRef g)) (movePipe pipe)
                          then gameOver hs0 g else g)).
  { destruct (hitsPipe _ _); [ apply gameOver_raised, H | exact H ]. }
  destruct (scores (movePipe pipe)); [ | exact K ].
  cbn [fst]. revert K. unfold raised. fields. intros [K | K]; [ left; exact K | right; lia ].
Qed.

Lemma forEachPipe_raised hs0 pipes : forall g,
  raised hs0 g -> raised hs0 (fst (forEachPipe hs0 g pipes)).
Proof.
  induction pipes as [ | pipe rest IH]; intros g H; [ exact H | ].
  rewrite forEachPipe_cons. cbn [fst]. apply IH, pipeBody_raised, H.
Qed.

Lemma pipeBody_quiet hs g pipe :
  hitsPipe (y (birdRef g)) (movePipe pipe) = false ->
  highScore (fst (pipeBody hs g pipe)) = highScore g /\
  loadingAi (fst (pipeBody hs g pipe)) = loadingAi g.
Proof.
  intro H. unfold pipeBody. rewrite H.
  destruct (scores (movePipe pipe)); split; reflexivity.
Qed.

Lemma pipeBody_loading hs g pipe :
  hitsPipe (y (birdRef g)) (movePipe pipe) = true ->
  loadingAi (fst (pipeBody hs g pipe)) = true.
Proof.
  intro H. unfold pipeBody. rewrite H.
  destruct (scores (movePipe pipe)); apply gameOver_fields.
Qed.

Lemma pipeBody_keeps_loading hs g pipe :
  loadingAi g = true -> loadingAi (fst (pipeBody hs g pipe)) = true.
Proof.
  intro H. destruct (hitsPipe (y (birdRef g)) (movePipe pipe)) eqn:E.
  - apply pipeBody_loading, E.
  - destruct (pipeBody_quiet hs g pipe E) as [_ ->]. exact H.
Qed.

Lemma forEachPipe_keeps_loading hs pipes : forall g,
  loadingAi g = true -> loadingAi (fst (forEachPipe hs g pipes)) = true.
Proof.
  induction pipes as [ | pipe rest IH]; intros g H; [ exact H | ].
  rewrite forEachPipe_cons. cbn [fst]. apply IH, pipeBody_keeps_loading, H.
Qed.

Lemma forEachPipe_flags hs pipes : forall g,
  match countHits (y (birdRef g)) pipes with
  | O => highScore (fst (forEachPipe hs g pipes)) = highScore g /\
         loadingAi (fst (forEachPipe hs g pipes)) = loadingAi g
  | S _ => loadingAi (fst (forEachPipe hs g pipes)) = true
  end.
Proof.
  induction pipes as [ | pipe rest IH]; intro g.
  - split; reflexivity.
  - rewrite forEachPipe_cons. cbn [fst countHits].
    specialize (IH (fst (pipeBody hs g pipe))).
    destruct (pipeBody_frame hs g pipe) as (B & _). cbv zeta in B. rewrite B in IH.
    destruct (hitsPipe (y (birdRef g)) (movePipe pipe)) eqn:E.
    + cbn [Nat.add]. apply forEachPipe_keeps_loading, pipeBody_loading, E.
    + cbn [Nat.add]. destruct (pipeBody_quiet hs g pipe E) as [Q1 Q2].
      destruct (countHits (y (birdRef g)) rest).
      * rewrite <- Q1, <- Q2. exact IH.
      * exact IH.
Qed.

(** The high score and the loading flag after one [update]. *)
Lemma update_flags random g :
  let g' := update random g in
  raised (highScore g) g' /\
  (hitsGround (y (physics (birdRef g))) = true ->
     highScore g' = Z.max (highScore g) (scoreRef g') /\ loadingAi g' = true) /\
  match triggers g with
  | O => highScore g' = highScore g /\ loadingAi g' = loadingAi g
  | S _ => loadingAi g' = true
  end.
Proof.
  cbv zeta. unfold update, triggers. unfold raised at 1. fields.
  set (g2 := spawning random (set_birdRef (physics (birdRef g)) g)).
  set (g3 := movement (highScore g) g2).
  assert (B2 : birdRef g2 = physics (birdRef g)) by apply spawning_fields.
  assert (H2 : highScore g2 = highScore g).
  { unfold g2.
    destruct (spawning_fields random (set_birdRef (physics (birdRef g)) g))
      as (_ & _ & _ & _ & _ & _ & _ & ->). reflexivity. }
  assert (L2 : loadingAi g2 = loadingAi g).
  { unfold g2, spawning. destruct (_ =? _)%Z; reflexivity. }
  assert (R3 : raised (highScore g) g3).
  { unfold g3. rewrite movement_eq. unfold raised. fields.
    apply (forEachPipe_raised (highScore g) (pipesRef g2) g2). left. exact H2. }
  assert (B3 : birdRef g3 = physics (birdRef g)).
  { unfold g3. destruct (movement_fields (highScore g) g2) as (_ & -> & _). exact B2. }
  assert (F3 : match countHits (y (physics (birdRef g))) (pipesRef g) with
               | O => highScore g3 = highScore g /\ loadingAi g3 = loadingAi g
               | S _ => loadingAi g3 = true
               end).
  { pose proof (forEachPipe_flags (highScore g) (pipesRef g2) g2) as F.
    rewrite B2 in F. unfold g2 in F at 1. rewrite countHits_spawning in F.
    cbn [pipesRef set_birdRef] in F.
    unfold g3. rewrite movement_eq. fields. rewrite H2, L2 in F. exact F. }
  assert (S3 : forall h, highScore (ceiling h) = highScore h /\
                         loadingAi (ceiling h) = loadingAi h /\
                         scoreRef (ceiling h) = scoreRef h).
  { intro h. unfold ceiling.
    match goal with |- context [if ?c then _ else _] => destruct c end;
      repeat split. }
  destruct (S3 (ground (highScore g) (pruning g3))) as (-> & -> & ->).
  unfold ground, pruning. fields. rewrite B3.
  destruct (hitsGround (y (physics (birdRef g)))) eqn:G.
  - set (g4 := set_birdRef _ _).
    assert (R4 : raised (highScore g) g4) by exact R3.
    destruct (gameOver_raised (highScore g) g4 R4) as [R5 M5].
    destruct (gameOver_fields (highScore g) g4) as (_ & L5 & _ & S5 & _).
    split; [ exact R5 | split ].
    + intros _. rewrite S5. split; [ exact M5 | exact L5 ].
    + rewrite Nat.add_1_r. exact L5.
  - split; [ exact R3 | split; [ discriminate | ] ].
    rewrite Nat.add_0_r. exact F3.
Qed.

Lemma raised_le hs0 g : raised hs0 g ->
  (hs0 <= highScore g <= Z.max hs0 (scoreRef g))%Z.
Proof. intros [H | H]; lia. Qed.

(** X8. The best score never goes down, and never exceeds the larger of its
    old value and the score of the state a step leads to.  A frame that
    ends a round on the ground leaves it at exactly that maximum; a frame
    without collision leaves it unchanged. *)
Theorem high_score_steps (apiKey : string) (g : Game) (e : Event) :
  let g' := step apiKey g e in
  (highScore g <= highScore g' <= Z.max (highScore g) (scoreRef g'))%Z /\
  (forall random sinTime,
     e = AnimationFrame random sinTime -> gameState g = PLAYING ->
     (hitsGround (y (integrated g)) = true ->
        highScore g' = Z.max (highScore g) (scoreRef g')) /\
     (triggers (runImpulse g) = O -> highScore g' = highScore g)).
Proof.
  intros g'. unfold g'. split.
  - destruct e as [ | | random sinTime | ai]; cbn [step].
    + unfold jump. destruct (gameState g); fields; try lia.
      * unfold startGame, resetGame. fields. lia.
      * destruct (loadingAi g); [ lia | ]. unfold startGame, resetGame. fields. lia.
    + destruct (gameState g); try lia. unfold startGame, resetGame. fields. lia.
    + destruct (runImpulse_fields g) as (_ & Hs & _ & _ & _ & _ & Hh & _).
      unfold loop. destruct (gameState (runImpulse g)).
      * unfold bobbing. fields. rewrite Hh, Hs. lia.
      * destruct (update_flags random (runImpulse g)) as (R & _).
        apply raised_le in R. rewrite Hh in R. exact R.
      * rewrite Hh, Hs. lia.
    + unfold feedbackSettled. destruct (inFlight g); [ lia | ].
      destruct (getGameFeedback _ _ _); fields; lia.
  - intros random sinTime -> Hplay.
    rewrite (frame_playing apiKey g random sinTime Hplay).
    destruct (runImpulse_fields g) as (_ & _ & _ & _ & _ & _ & Hh & _).
    destruct (update_flags random (runImpulse g)) as (_ & G & T).
    rewrite Hh in G, T. split.
    + intro Hg. apply G. exact Hg.
    + intro Ht. rewrite Ht in T. apply T.
Qed.

Lemma high_score_steps_witness :
  highScore (step API_KEY_unset falling (AnimationFrame 0.5 0)) = 2%Z /\
  (highScore falling
   <= highScore (step API_KEY_unset (set_scoreRef 5 falling) (AnimationFrame 0.5 0)))%Z /\
  highScore (step API_KEY_unset (set_scoreRef 5 falling) (AnimationFrame 0.5 0)) = 5%Z.
Proof.
  destruct (high_score_steps API_KEY_unset falling (AnimationFrame 0.5 0)) as [_ A2].
  destruct (high_score_steps API_KEY_unset (set_scoreRef 5 falling) (AnimationFrame 0.5 0))
    as [B1 B2].
  destruct (A2 0.5 0 eq_refl eq_refl) as [A3 _].
  destruct (B2 0.5 0 eq_refl eq_refl) as [B3 _].
  split; [ | split ].
  - rewrite (A3 eq_refl). reflexivity.
  - exact (proj1 B1).
  - rewrite (B3 eq_refl). reflexivity.
Defined.

Lemma run_snoc apiKey g events e :
  run apiKey g (events ++ [e]) = step apiKey (run apiKey g events) e.
Proof. unfold run. rewrite fold_left_app. reflexivity. Qed.

(** ** The start screen *)

Lemma leaves_start apiKey g e :
  gameState (step apiKey g e) = START -> gameState g = START /\ e <> Activate.
Proof.
  destruct e as [ | | random sinTime | ai]; cbn [step].
  - unfold jump. destruct (gameState g) eqn:E.
    + unfold startGame. fields. discriminate.
    + fields. rewrite E. discriminate.
    + destruct (loadingAi g); [ rewrite E | unfold startGame; fields ]; discriminate.
  - destruct (gameState g) eqn:E.
    + intros _. split; [ reflexivity | discriminate ].
    + rewrite E. discriminate.
    + unfold startGame. fields. discriminate.
  - destruct (runImpulse_fields g) as (Hs & _).
    unfold loop. rewrite Hs. destruct (gameState g) eqn:E.
    + intros _. split; [ reflexivity | discriminate ].
    + rewrite update_gameState. destruct (triggers _); [ rewrite Hs | ]; discriminate.
    + rewrite Hs. discriminate.
  - unfold feedbackSettled. intro H. split; [ | discriminate ].
    destruct (inFlight g); [ exact H | ].
    destruct (getGameFeedback _ _ _); exact H.
Qed.

Lemma start_cells apiKey : forall events,
  gameState (run apiKey mount events) = START ->
  ~ In Activate events /\
  pipesRef (run apiKey mount events) = [] /\
  scoreRef (run apiKey mount events) = 0%Z /\
  score (run apiKey mount events) = 0%Z /\
  frameCountRef (run apiKey mount events) = 0%Z /\
  highScore (run apiKey mount events) = 0%Z /\
  inFlight (run apiKey mount events) = [] /\
  loadingAi (run apiKey mount events) = false /\
  aiFeedback (run apiKey mount events) = EmptyString.
Proof.
  intro events. induction events as [ | e events IH] using rev_ind.
  - intros _. cbn. repeat split. intros [].
  - rewrite run_snoc. intro Hst.
    destruct (leaves_start apiKey _ _ Hst) as [Hprev He].
    destruct (IH Hprev) as (I0 & I1 & I2 & I3 & I4 & I5 & I6 & I7 & I8).
    split.
    + intro Hin. apply in_app_or in Hin. destruct Hin as [Hin | [Hin | []]].
      * exact (I0 Hin).
      * apply He. exact Hin.
    + set (h := run apiKey mount events) in *.
      destruct e as [ | | random sinTime | ai]; cbn [step] in *.
      * contradiction.
      * rewrite Hprev. repeat split; assumption.
      * unfold runImpulse, loop in *.
        destruct (rafImpulse h); fields; rewrite Hprev; unfold bobbing; fields;
          repeat split; assumption.
      * unfold feedbackSettled. rewrite I6. repeat split; assumption.
Qed.

(** X9. The start screen is shown only before the first input: no step
    leads back to START, and while the state is START no input has been
    received, there are no pipes, score and frame counter are 0, the best
    score is 0 and no commentary has been requested. *)
Theorem start_screen (apiKey : string) :
  (forall g e, gameState g <> START -> gameState (step apiKey g e) <> START) /\
  (forall events,
     let g := run apiKey mount events in
     gameState g = START ->
     ~ In Activate events /\
     pipesRef g = [] /\ scoreRef g = 0%Z /\ score g = 0%Z /\ frameCountRef g = 0%Z /\
     highScore g = 0%Z /\ inFlight g = [] /\ loadingAi g = false /\
     aiFeedback g = EmptyString).
Proof.
  split.
  - intros g e H K. apply H. apply (leaves_start apiKey g e K).
  - intro events. apply start_cells.
Qed.

Lemma start_screen_witness :
  pipesRef (run API_KEY_unset mount [AnimationFrame 0.5 0.5; AnimationFrame 0.1 (-1)]) = [] /\
  gameState (step API_KEY_unset crashed (AnimationFrame 0.5 0)) <> START.
Proof.
  destruct (start_screen API_KEY_unset) as [A B].
  split.
  - apply (B [AnimationFrame 0.5 0.5; AnimationFrame 0.1 (-1)]). reflexivity.
  - apply A. discriminate.
Defined.

(** ** The loading flag *)

Lemma getGameFeedback_returns apiKey ai sc : exists s, getGameFeedback apiKey ai sc = Returned s.
Proof.
  unfold getGameFeedback. destruct (feedback_try apiKey ai sc); eexists; reflexivity.
Qed.

Lemma awaited_step apiKey g e : awaited g -> awaited (step apiKey g e).
Proof.
  unfold awaited. intro H. destruct e as [ | | random sinTime | ai]; cbn [step].
  - unfold jump, startGame, resetGame. destruct (gameState g); fields; try exact H.
    destruct (loadingAi g) eqn:E; fields; intro K.
    + apply H. reflexivity.
    + rewrite E in K. discriminate.
  - unfold startGame, resetGame. destruct (gameState g); fields; exact H.
  - destruct (runImpulse_fields g) as (_ & _ & _ & _ & _ & Hi & _ & Hl & _).
    unfold loop. destruct (gameState (runImpulse g)).
    + unfold bobbing. fields. rewrite Hi, Hl. exact H.
    + destruct (update_inFlight_suffix random (runImpulse g)) as (l & -> & Hlen).
      destruct (update_flags random (runImpulse g)) as (_ & _ & T).
      destruct (triggers (runImpulse g)).
      * destruct T as [_ ->]. destruct l; [ | discriminate ].
        rewrite app_nil_r, Hi, Hl. exact H.
      * intros _ K. apply app_eq_nil in K. destruct K as [_ K]. subst l. discriminate.
    + rewrite Hi, Hl. exact H.
  - unfold feedbackSettled. destruct (inFlight g) as [ | sc rest] eqn:E; [ rewrite E; exact H | ].
    destruct (getGameFeedback_returns apiKey ai sc) as [s ->]. fields. discriminate.
Qed.

Lemma settle_all apiKey : forall ais g,
  awaited g -> List.length ais = List.length (inFlight g) ->
  let g' := run apiKey g (map Settled ais) in
  loadingAi g' = false /\ inFlight g' = [] /\ roundOf g' = roundOf g.
Proof.
  induction ais as [ | ai ais IH]; intros g Hw Hlen.
  - cbn. destruct (inFlight g) eqn:E; [ | discriminate ].
    repeat split. destruct (loadingAi g) eqn:L; [ | reflexivity ].
    exfalso. apply Hw; [ exact L | exact E ].
  - cbn [map run fold_left]. fold (run apiKey (step apiKey g (Settled ai)) (map Settled ais)).
    destruct (inFlight g) as [ | sc rest] eqn:E; [ discriminate | ].
    assert (S1 : inFlight (step apiKey g (Settled ai)) = rest /\
                 loadingAi (step apiKey g (Settled ai)) = false /\
                 roundOf (step apiKey g (Settled ai)) = roundOf g).
    { cbn [step]. unfold feedbackSettled. rewrite E.
      destruct (getGameFeedback_returns apiKey ai sc) as [s ->]. repeat split. }
    destruct S1 as (S1 & S2 & S3).
    destruct (IH (step apiKey g (Settled ai))) as (A & B & C).
    + unfold awaited. rewrite S2. discriminate.
    + rewrite S1. cbn in Hlen. lia.
    + cbv zeta. rewrite C, S3. repeat split; assumption.
Qed.

(** X10. The loading flag cannot hang.  In every state reached from the
    first render, once each commentary call in flight has settled, whatever
    the collaborator did, the loading flag is clear and no call is awaited,
    and the round shown is untouched; on the game-over screen the next
    input then starts a new round. *)
Theorem loading_ends (apiKey : string) (events : list Event) (ais : list Service) :
  let g := run apiKey mount events in
  List.length ais = List.length (inFlight g) ->
  let g' := run apiKey g (map Settled ais) in
  loadingAi g' = false /\ inFlight g' = [] /\ roundOf g' = roundOf g /\
  (gameState g = GAME_OVER -> gameState (step apiKey g' Activate) = PLAYING).
Proof.
  intros g Hlen g'.
  assert (W : awaited g).
  { apply (run_invariant apiKey awaited (fun _ => True)).
    - intros h e _. apply awaited_step.
    - rewrite Forall_forall. trivial.
    - unfold awaited. cbn. discriminate. }
  destruct (settle_all apiKey ais g W Hlen) as (A & B & C). fold g' in A, B, C.
  split; [ exact A | split; [ exact B | split; [ exact C | ] ] ].
  intro Hover. cbn [step]. unfold jump.
  assert (S : gameState g' = GAME_OVER).
  { unfold roundOf in C. injection C as -> _ _ _ _ _ _. exact Hover. }
  rewrite S, A. reflexivity.
Qed.

Lemma loading_ends_witness :
  let g := run API_KEY_unset mount firstRound in
  loadingAi (run API_KEY_unset g [Settled (fun _ _ => ApiRejects)]) = false /\
  gameState (step API_KEY_unset (run API_KEY_unset g [Settled (fun _ _ => ApiRejects)])
                  Activate) = PLAYING.
Proof.
  intro g.
  assert (L : List.length [fun (_ _ : string) => ApiRejects] = List.length (inFlight g))
    by (vm_compute; reflexivity).
  destruct (loading_ends API_KEY_unset firstRound [fun _ _ => ApiRejects] L)
    as (A & _ & _ & B).
  split; [ exact A | ]. apply B. vm_compute. reflexivity.
Defined.

(** ** A round depends on its inputs only *)

Lemma pipeBody_displayed hs g pipe :
  score (fst (pipeBody hs g pipe)) =
  if scores (movePipe pipe) then (scoreRef g + 1)%Z else score g.
Proof.
  unfold pipeBody.
  destruct (hitsPipe _ _), (scores _); cbn [fst]; fields;
    destruct (gameOver_fields hs g) as (_ & _ & _ & A & B & _);
    rewrite ?A, ?B; reflexivity.
Qed.

Lemma forEachPipe_displayed hs pipes : forall g,
  score (fst (forEachPipe hs g pipes)) =
  if (countScores pipes =? 0)%Z then score g else (scoreRef g + countScores pipes)%Z.
Proof.
  induction pipes as [ | pipe rest IH]; intro g.
  - reflexivity.
  - rewrite forEachPipe_cons. cbn [fst countScores].
    rewrite IH, pipeBody_displayed, pipeBody_scoreRef.
    pose proof (countScores_nonneg rest) as N.
    destruct (scores (movePipe pipe)).
    + destruct (countScores rest =? 0)%Z eqn:E.
      * apply Z.eqb_eq in E. rewrite E.
        destruct (1 + 0 =? 0)%Z eqn:F; [ discriminate | lia ].
      * destruct (1 + countScores rest =? 0)%Z eqn:F; [ apply Z.eqb_eq in F; lia | lia ].
    + replace (0 + countScores rest)%Z with (countScores rest) by lia.
      destruct (countScores rest =? 0)%Z; [ reflexivity | lia ].
Qed.

Lemma update_displayed random g :
  score (update random g) =
  if (countScores (pipesRef g) =? 0)%Z then score g
  else (scoreRef g + countScores (pipesRef g))%Z.
Proof.
  unfold update. fields.
  set (g2 := spawning random (set_birdRef (physics (birdRef g)) g)).
  destruct (ceiling_fields (ground (highScore g) (pruning (movement (highScore g) g2))))
    as (_ & _ & -> & _).
  destruct (ground_fields (highScore g) (pruning (movement (highScore g) g2)))
    as (_ & -> & _).
  unfold pruning. fields. rewrite movement_eq. fields.
  rewrite forEachPipe_displayed. unfold g2. rewrite countScores_spawning.
  destruct (spawning_fields random (set_birdRef (physics (birdRef g)) g))
    as (_ & -> & -> & _).
  reflexivity.
Qed.

Lemma update_sameRound random g h :
  roundOf g = roundOf h -> gameState g = PLAYING ->
  sameRound (update random g) (update random h).
Proof.
  unfold sameRound, roundOf. intros H Hplay.
  injection H as E1 E2 E3 E4 E5 E6 E7.
  assert (T : triggers g = triggers h) by (unfold triggers; rewrite E2, E3; reflexivity).
  split.
  - rewrite !update_gameState, !update_bird, !update_pipes, !spawning_pipes,
      !update_frameCount, !update_scoreRef, !update_displayed, !update_rafImpulse.
    rewrite T, E1, E2, E3, E4, E5, E6, E7. reflexivity.
  - rewrite update_gameState. intro K.
    destruct (update_flags random g) as (_ & _ & Fg).
    destruct (update_flags random h) as (_ & _ & Fh).
    rewrite <- T in Fh. destruct (triggers g).
    + rewrite Hplay in K. discriminate.
    + cbv zeta in Fg, Fh. rewrite Fg, Fh. reflexivity.
Qed.

Lemma sameRound_step apiKey g h e :
  notSettled e -> sameRound g h -> sameRound (step apiKey g e) (step apiKey h e).
Proof.
  intros He [H L]. pose proof H as H'. unfold roundOf in H'.
  injection H' as E1 E2 E3 E4 E5 E6 E7.
  destruct e as [ | | random sinTime | ai]; cbn [step]; try contradiction.
  - unfold jump. rewrite <- E1. destruct (gameState g) eqn:S.
    + unfold sameRound, roundOf, startGame, resetGame. fields.
      split; [ reflexivity | discriminate ].
    + unfold sameRound, roundOf. fields. rewrite <- E1, S, E2, E3, E4, E5, E6, E7.
      split; [ reflexivity | discriminate ].
    + pose proof (L eq_refl) as LL. rewrite <- LL. destruct (loadingAi g) eqn:B.
      * split; [ exact H | ]. intros _. rewrite B. exact LL.
      * unfold sameRound, roundOf, startGame, resetGame. fields. rewrite E7.
        split; [ reflexivity | discriminate ].
  - rewrite <- E1. destruct (gameState g) eqn:S.
    + split; [ exact H | rewrite S; discriminate ].
    + split; [ exact H | rewrite S; discriminate ].
    + unfold sameRound, roundOf, startGame, resetGame. fields. rewrite E7.
      split; [ reflexivity | discriminate ].
  - assert (R : sameRound (runImpulse g) (runImpulse h)).
    { unfold sameRound, roundOf, runImpulse. rewrite <- E7.
      destruct (rafImpulse g); fields.
      - split; [ rewrite E1, E2, E3, E4, E5, E6; reflexivity | exact L ].
      - split; [ exact H | exact L ]. }
    destruct R as [R RL]. pose proof R as R'. unfold roundOf in R'.
    injection R' as F1 _ _ _ _ _ _.
    unfold loop. rewrite <- F1. destruct (gameState (runImpulse g)) eqn:S.
    + unfold sameRound, roundOf, bobbing in *. fields.
      injection R as G1 G2 G3 G4 G5 G6 G7.
      rewrite G1, G2, G3, G4, G5, G6, G7. split; [ reflexivity | ].
      rewrite <- G1, S. discriminate.
    + apply update_sameRound; assumption.
    + split; [ exact R | intros _; apply RL; reflexivity ].
Qed.

Lemma sameRound_run apiKey : forall events g h,
  Forall notSettled events -> sameRound g h ->
  sameRound (run apiKey g events) (run apiKey h events).
Proof.
  induction events as [ | e events IH]; intros g h Hev H; [ exact H | ].
  inversion Hev; subst. cbn [run fold_left].
  apply IH; [ assumption | ]. apply sameRound_step; assumption.
Qed.

(** X11. What is shown of a round (screen, bird, pipes, frame counter,
    score) depends only on the inputs and the random numbers: two states
    that show the same round still do after the same steps, whatever their
    best scores, commentary texts and requests in flight, as long as no
    commentary call settles in between.  In particular a round restarted
    from any two states replays identically. *)
Theorem round_replays (apiKey : string) (g h : Game) (events : list Event) :
  Forall notSettled events ->
  (sameRound g h ->
   roundOf (run apiKey g events) = roundOf (run apiKey h events)) /\
  (rafImpulse g = rafImpulse h ->
   roundOf (run apiKey (startGame g) events) = roundOf (run apiKey (startGame h) events)).
Proof.
  intro Hev. split.
  - intro H. apply (sameRound_run apiKey events g h Hev H).
  - intro Hr. apply (sameRound_run apiKey events (startGame g) (startGame h) Hev).
    unfold sameRound, roundOf, startGame, resetGame. fields. rewrite Hr.
    split; [ reflexivity | discriminate ].
Qed.

Lemma round_replays_witness :
  roundOf (run API_KEY_unset (startGame crashed) [AnimationFrame 0.3 0; Activate])
  = roundOf (run API_KEY_unset (startGame falling) [AnimationFrame 0.3 0; Activate]).
Proof.
  apply (round_replays API_KEY_unset crashed falling [AnimationFrame 0.3 0; Activate]).
  - repeat constructor.
  - reflexivity.
Defined.

(** ** Inputs during flight *)

(** X12. Inputs in PLAYING are not queued: any number of them before a
    frame does what one does, forgetting the velocity the bird had; the
    frame then integrates from the jump impulse, so the bird is
    JUMP_STRENGTH + GRAVITY = -7.1 px from where it was, before the
    boundary tests. *)
Theorem latest_impulse (apiKey : string) (g : Game) (n : nat) :
  gameState g = PLAYING ->
  run apiKey g (repeat Activate (S n)) = step apiKey g Activate /\
  (forall v, step apiKey (set_birdRef (set_velocity v (birdRef g)) g) Activate
             = step apiKey g Activate) /\
  velocity (integrated (step apiKey g Activate)) == JUMP_STRENGTH + GRAVITY /\
  y (integrated (step apiKey g Activate)) == y (birdRef g) - 7.1.
Proof.
  intro Hplay.
  assert (J : forall h, gameState h = PLAYING ->
              jump h = set_birdRef (set_velocity JUMP_STRENGTH (birdRef h)) h).
  { intros h Hh. unfold jump. rewrite Hh. reflexivity. }
  split; [ | split; [ | split ] ].
  - induction n as [ | n IH].
    + reflexivity.
    + change (repeat Activate (S (S n))) with (Activate :: repeat Activate (S n)).
      cbn [run fold_left]. fold (run apiKey (step apiKey g Activate) (repeat Activate (S n))).
      cbn [step]. rewrite (J g Hplay).
      revert IH. cbn [step]. rewrite (J g Hplay). intro IH.
      change (repeat Activate (S n)) with (Activate :: repeat Activate n) in *.
      cbn [run fold_left step] in *.
      rewrite (J g Hplay) in IH. rewrite J by (fields; exact Hplay). fields.
      fold (run apiKey (set_birdRef (set_velocity JUMP_STRENGTH (birdRef g)) g) (repeat Activate n)) in *.
      exact IH.
  - intro v. cbn [step]. rewrite (J g Hplay), J by (fields; exact Hplay). reflexivity.
  - cbn [step]. rewrite (J g Hplay). unfold integrated, runImpulse, physics. fields.
    destruct (rafImpulse g); fields; reflexivity.
  - cbn [step]. rewrite (J g Hplay). unfold integrated, runImpulse, physics. fields.
    destruct (rafImpulse g); fields; unfold_constants; lra.
Qed.

Lemma latest_impulse_witness :
  run API_KEY_unset inGap [Activate; Activate; Activate] = step API_KEY_unset inGap Activate /\
  y (integrated (step API_KEY_unset inGap Activate)) == 280 - 7.1.
Proof.
  destruct (latest_impulse API_KEY_unset inGap 2 eq_refl) as (A & _ & _ & B).
  split; [ exact A | exact B ].
Defined.

(** ** The prompt *)

Lemma append_length (s t : string) :
  String.length (s ++ t) = (String.length s + String.length t)%nat.
Proof. induction s as [ | c s IH]; simpl; [ reflexivity | rewrite IH; reflexivity ]. Qed.

Lemma append_cancel_l (p s t : string) : (p ++ s = p ++ t)%string -> s = t.
Proof.
  induction p as [ | c p IH]; simpl; intro H; [ exact H | ].
  injection H as H. apply IH, H.
Qed.

Lemma append_cancel_r (u : string) : forall s t : string, (s ++ u = t ++ u)%string -> s = t.
Proof.
  induction s as [ | c s IH]; intros [ | d t] H; simpl in H.
  - reflexivity.
  - exfalso. apply (f_equal String.length) in H. simpl in H.
    rewrite append_length in H. lia.
  - exfalso. apply (f_equal String.length) in H. simpl in H.
    rewrite append_length in H. lia.
  - injection H as -> H. f_equal. apply IH, H.
Qed.

Lemma number_to_string_inj (a b : Z) : number_to_string a = number_to_string b -> a = b.
Proof.
  unfold number_to_string. intro H.
  apply (f_equal NilEmpty.int_of_string) in H. rewrite !NilEmpty.isi in H.
  injection H as H. apply (f_equal Z.of_int) in H.
  rewrite !DecimalZ.of_to in H. exact H.
Qed.

(** X13. The prompt sent to the collaborator carries the score: two
    different final scores never give the same prompt. *)
Theorem prompt_carries_score (a b : Z) : a <> b -> prompt a <> prompt b.
Proof.
  unfold prompt. intros Hab H. apply Hab.
  apply append_cancel_l in H. apply append_cancel_r in H.
  apply number_to_string_inj, H.
Qed.

Lemma prompt_carries_score_witness : prompt 5 <> prompt 21.
Proof. apply (prompt_carries_score 5 21). discriminate. Defined.

(** ** Drawing the pipes *)

(** X14. What is drawn for a pipe whose gap-top height is in the range of
    [spawnPipe]: each of the six rectangles has positive width and height
    and lies between the top of the canvas and the ground line; the upper
    body goes from 0 to the gap-top, the lower body from the gap-bottom to
    exactly the ground line CANVAS_HEIGHT - 40. *)
Theorem pipes_drawn_on_field (pipe : Pipe) :
  gapSafe pipe ->
  Forall (fun p => onField (rectOf p)) (drawPipe pipe) /\
  In (FillRect COLOR_PIPE (x pipe) 0 PIPE_WIDTH (topHeight pipe)) (drawPipe pipe) /\
  (exists h, In (FillRect COLOR_PIPE (x pipe) (topHeight pipe + PIPE_GAP) PIPE_WIDTH h)
                (drawPipe pipe) /\
             topHeight pipe + PIPE_GAP + h == CANVAS_HEIGHT - 40 /\ 110 <= h).
Proof.
  intros (H1 & H2 & H3 & H4). unfold drawPipe. unfold_constants.
  split; [ | split ].
  - repeat (apply Forall_cons;
              [ cbn [rectOf onField]; unfold_constants; repeat split; lra | ]).
    apply Forall_nil.
  - left. reflexivity.
  - eexists. split; [ right; right; right; left; reflexivity | ].
    split; [ ring | lra ].
Qed.

Lemma pipes_drawn_on_field_witness :
  Forall (fun p => onField (rectOf p)) (drawPipe (spawnPipe 0.5)).
Proof.
  apply (pipes_drawn_on_field (spawnPipe 0.5)).
  apply spawnPipe_gapSafe; lra.
Defined.

(** X15. The collision test agrees with the drawing: for a bird between
    ceiling and ground, a pipe is hit exactly when the square around the
    bird meets one of the two pipe bodies that [drawPipe] fills (the caps,
    2 px wider on each side, play no part). *)
Theorem collision_matches_drawing (birdY : Q) (pipe : Pipe) :
  BIRD_RADIUS <= birdY -> birdY <= CANVAS_HEIGHT - 40 - BIRD_RADIUS ->
  (hitsPipe birdY pipe = true <->
   exists rx ry rw rh,
     In (FillRect COLOR_PIPE rx ry rw rh) (drawPipe pipe) /\
     birdMeets birdY (rx, ry, rw, rh)).
Proof.
  intros Hl Hu. unfold hitsPipe, overlapsX, outsideGap, birdMeets.
  split.
  - intro H. apply andb_true_iff in H. destruct H as [Ho Hg].
    apply andb_true_iff in Ho. destruct Ho as [Ho1 Ho2].
    apply orb_true_iff in Hg. js_tests.
    destruct Hg as [Hg | Hg]; js_tests.
    + exists (x pipe), 0, PIPE_WIDTH, (topHeight pipe).
      split; [ left; reflexivity | ]. unfold_constants. repeat split; lra.
    + exists (x pipe), (topHeight pipe + PIPE_GAP), PIPE_WIDTH,
        (CANVAS_HEIGHT - (topHeight pipe + PIPE_GAP) - 40).
      split; [ right; right; right; left; reflexivity | ].
      unfold_constants. repeat split; lra.
  - intros (rx & ry & rw & rh & Hin & M1 & M2 & M3 & M4).
    unfold drawPipe in Hin. cbn [In] in Hin.
    destruct Hin as [E | [E | [E | [E | [E | [E | []]]]]]]; try discriminate E.
    + injection E as <- <- <- <-.
      apply andb_true_iff. split; [ apply andb_true_iff; split | apply orb_true_iff; left ];
        js_tests; unfold_constants; lra.
    + injection E as <- <- <- <-.
      apply andb_true_iff. split; [ apply andb_true_iff; split | apply orb_true_iff; right ];
        js_tests; unfold_constants; lra.
Qed.

Lemma collision_matches_drawing_witness :
  hitsPipe 100 (mkPipe 90 200 false) = true <->
  exists rx ry rw rh,
    In (FillRect COLOR_PIPE rx ry rw rh) (drawPipe (mkPipe 90 200 false)) /\
    birdMeets 100 (rx, ry, rw, rh).
Proof.
  apply (collision_matches_drawing 100 (mkPipe 90 200 false)).
  - vm_compute. discriminate.
  - vm_compute. discriminate.
Defined.

(** ** The first frames of a round *)

Lemma countHits_early birdY fc : forall l age,
  (fc < 194)%Z -> layout fc age l -> countHits birdY l = O.
Proof.
  induction l as [ | pipe older IH]; intros age Hfc H; [ reflexivity | ].
  destruct H as (_ & H2 & Hx & _ & Hold).
  cbn [countHits]. rewrite (IH _ Hfc Hold).
  unfold hitsPipe. rewrite (overlaps_at_age pipe age Hx).
  destruct (194 <=? age)%Z eqn:A; [ apply Z.leb_le in A; lia | reflexivity ].
Qed.

(** X16. In every state reached from the first render whose frame counter
    is below 194, no pipe can be hit in the next frame, wherever the bird
    is: during the first 194 frames of a round only the ground can end
    it. *)
Theorem no_pipe_hit_early (apiKey : string) (events : list Event) (random sinTime : Q) :
  let g := run apiKey mount events in
  (frameCountRef g < 194)%Z ->
  (forall birdY, countHits birdY (pipesRef g) = O) /\
  (gameState g = PLAYING -> hitsGround (y (integrated g)) = false ->
   gameState (step apiKey g (AnimationFrame random sinTime)) = PLAYING).
Proof.
  intros g Hfc. destruct (laidOut_run apiKey events) as (_ & HL & _). fold g in HL.
  assert (K : forall birdY, countHits birdY (pipesRef g) = O).
  { intro birdY. rewrite <- countHits_rev. apply (countHits_early _ _ _ _ Hfc HL). }
  split; [ exact K | ].
  intros Hplay Hg.
  rewrite (frame_playing apiKey g random sinTime Hplay), update_gameState, frame_triggers.
  rewrite K, Hg. cbn [Nat.add].
  destruct (runImpulse_fields g) as (-> & _). exact Hplay.
Qed.

Lemma no_pipe_hit_early_witness :
  countHits 100 (pipesRef (run API_KEY_unset mount firstRound)) = O.
Proof.
  assert (H : (frameCountRef (run API_KEY_unset mount firstRound) < 194)%Z)
    by (vm_compute; reflexivity).
  apply (proj1 (no_pipe_hit_early API_KEY_unset firstRound 0.5 0 H)).
Defined.

Lemma impulseAtStart_step apiKey g e : impulseAtStart g -> impulseAtStart (step apiKey g e).
Proof.
  unfold impulseAtStart. intro H.
  destruct e as [ | | random sinTime | ai]; cbn [step].
  - unfold jump, startGame, resetGame. destruct (gameState g) eqn:S; fields.
    + intros _. repeat split.
    + intro K. destruct (H K) as (_ & A & B & C). rewrite S. repeat split; assumption.
    + destruct (loadingAi g); fields; intro K; destruct (H K) as (A & _); congruence.
  - unfold startGame, resetGame. destruct (gameState g) eqn:S; fields;
      intro K; destruct (H K) as (A & B & C & D); try discriminate A.
    rewrite S. repeat split; assumption.
  - destruct (runImpulse_fields g) as (_ & _ & _ & _ & _ & _ & _ & _ & _ & R).
    unfold loop. destruct (gameState (runImpulse g)).
    + unfold bobbing. fields. rewrite R. discriminate.
    + rewrite update_rafImpulse, R. discriminate.
    + rewrite R. discriminate.
  - unfold feedbackSettled. destruct (inFlight g); [ exact H | ].
    destruct (getGameFeedback _ _ _); fields; exact H.
Qed.

(** X17. In every state reached from the first render, the impulse callback
    of [jump] is pending only in PLAYING before the first frame of a round
    (frame counter 0, no pipes, score 0); on the game-over screen and on
    the start screen none is pending, and after any frame none is. *)
Theorem impulse_only_before_first_frame (apiKey : string) (events : list Event) :
  let g := run apiKey mount events in
  (rafImpulse g = true ->
   gameState g = PLAYING /\ frameCountRef g = 0%Z /\ pipesRef g = [] /\ scoreRef g = 0%Z) /\
  (gameState g <> PLAYING -> rafImpulse g = false) /\
  (forall random sinTime, rafImpulse (step apiKey g (AnimationFrame random sinTime)) = false).
Proof.
  intro g.
  assert (I : impulseAtStart g).
  { apply (run_invariant apiKey impulseAtStart (fun _ => True)).
    - intros h e _. apply impulseAtStart_step.
    - rewrite Forall_forall. trivial.
    - unfold impulseAtStart. cbn. discriminate. }
  split; [ exact I | split ].
  - intro Hn. destruct (rafImpulse g) eqn:R; [ | reflexivity ].
    exfalso. apply Hn. apply (I R).
  - intros random sinTime. cbn [step].
    destruct (runImpulse_fields g) as (_ & _ & _ & _ & _ & _ & _ & _ & _ & R).
    unfold loop. destruct (gameState (runImpulse g)).
    + unfold bobbing. fields. exact R.
    + rewrite update_rafImpulse. exact R.
    + exact R.
Qed.

Lemma impulse_only_before_first_frame_witness :
  rafImpulse (run API_KEY_unset mount firstRound) = false.
Proof.
  apply (proj1 (proj2 (impulse_only_before_first_frame API_KEY_unset firstRound))).
  vm_compute. discriminate.
Defined.

(** A round that ends in the frame in which its first pipe is passed: the
    bird drops out of the gap onto the lower pipe in frame 218.  The pipe
    test calls [gameOver] before the score test of the same pipe, so the
    commentary is requested for score 0 and the best score stays 0, while
    the score shown is 1. *)
Example point_in_the_last_frame :
  let frame := AnimationFrame 0.625 0 in
  let g := run API_KEY_unset mount
             (Activate :: repeat frame 14 ++ Activate :: repeat frame 35
              ++ Activate :: repeat frame 35 ++ Activate :: repeat frame 35
              ++ Activate :: repeat frame 35 ++ Activate :: repeat frame 48
              ++ Activate :: repeat frame 5 ++ Activate :: repeat frame 11) in
  gameState g = GAME_OVER /\ frameCountRef g = 218%Z /\
  scoreRef g = 1%Z /\ score g = 1%Z /\ highScore g = 0%Z /\ inFlight g = [0%Z].
Proof. vm_compute. repeat split. Qed.
